(** * Speech-to-text fallback chain (src/stt.js): a shallow embedding

    The module under study converts an audio file into text by trying a
    primary HTTP service, then a Gradio batch service (upload / call /
    event poll), then the offline Vosk recognizer.  This development
    embeds the pure helpers of [src/stt.js] as Rocq functions, the HTTP
    steps as a small state-and-exception monad over the log of issued
    requests, and the event-driven offline recognizer as a step function
    over the events its read stream emits.

    Conventions.
    - A JavaScript string is a list of code units.  Code units are
      restricted to the range 0..255 (type [ascii]), on which
      [trim], [toLowerCase] and the regular expressions of the source are
      modelled exactly.
    - A JavaScript number is a rational; the program never computes with
      numbers, it only tests them for truthiness and prints them. *)

From Stdlib Require Import String List Ascii Bool Arith ZArith QArith Lia.
From Stdlib Require Import DecimalString.
Import ListNotations.

Close Scope Q_scope.

Set Implicit Arguments.
Set Warnings "-register-all".

Local Open Scope list_scope.

(** ** Strings *)

Module JsString.

Definition jsstring := list ascii.

(** [js "abc"] is the string literal ['abc']. *)
Definition js (s : string) : jsstring := list_ascii_of_string s.

Definition code (c : ascii) : nat := nat_of_ascii c.

Definition ch (n : nat) : ascii := ascii_of_nat n.

Definition LF : ascii := ch 10.
Definition CR : ascii := ch 13.
Definition DQUOTE : ascii := ch 34.

Definition eqc (a b : ascii) : bool := Ascii.eqb a b.

Fixpoint eqs (a b : jsstring) : bool :=
  match a, b with
  | [], [] => true
  | x :: a', y :: b' => eqc x y && eqs a' b'
  | _, _ => false
  end.

(** White space and line terminators of ECMAScript below code unit 256:
    TAB, LF, VT, FF, CR, SP and NBSP.  [String.prototype.trim] and the
    regular expression class [\s] use the same set. *)
Definition isWhiteSpace (c : ascii) : bool :=
  let n := code c in
  ((9 <=? n) && (n <=? 13)) || (n =? 32) || (n =? 160).

(** The regular expression class [\d]. *)
Definition isDigit (c : ascii) : bool :=
  let n := code c in (48 <=? n) && (n <=? 57).

(** [String.prototype.toLowerCase] on one code unit below 256: A-Z and the
    Latin-1 capitals U+00C0..U+00DE (except the multiplication sign). *)
Definition lowerChar (c : ascii) : ascii :=
  let n := code c in
  if ((65 <=? n) && (n <=? 90))
     || ((192 <=? n) && (n <=? 222) && negb (n =? 215))
  then ch (n + 32) else c.

Definition toLowerCase (s : jsstring) : jsstring := map lowerChar s.

Fixpoint trimStart (s : jsstring) : jsstring :=
  match s with
  | [] => []
  | c :: r => if isWhiteSpace c then trimStart r else s
  end.

Fixpoint trimEnd (s : jsstring) : jsstring :=
  match s with
  | [] => []
  | c :: r =>
      match trimEnd r with
      | [] => if isWhiteSpace c then [] else [c]
      | r' => c :: r'
      end
  end.

(** [s.trim()] *)
Definition trim (s : jsstring) : jsstring := trimEnd (trimStart s).

(** [s.startsWith(p)] *)
Fixpoint startsWith (p s : jsstring) : bool :=
  match p, s with
  | [], _ => true
  | x :: p', y :: s' => eqc x y && startsWith p' s'
  | _ :: _, [] => false
  end.

(** [s.slice(n)] for [0 <= n]. *)
Definition slice (n : nat) (s : jsstring) : jsstring := skipn n s.

(** [s.split(sep)] for a one-character separator. *)
Fixpoint split (sep : ascii) (s : jsstring) : list jsstring :=
  match s with
  | [] => [[]]
  | c :: r =>
      if eqc c sep then [] :: split sep r
      else match split sep r with
           | l :: ls => (c :: l) :: ls
           | [] => [[c]]
           end
  end.

(** [s.split(/\r?\n/)]: a separator is a line feed, together with the
    carriage return directly before it when there is one. *)
Fixpoint splitLines (s : jsstring) : list jsstring :=
  match s with
  | [] => [[]]
  | c :: r =>
      if eqc c LF then [] :: splitLines r
      else if eqc c CR && startsWith [LF] r then splitLines r
      else match splitLines r with
           | l :: ls => (c :: l) :: ls
           | [] => [[c]]
           end
  end.

(** [parts.join(sep)] *)
Fixpoint join (sep : jsstring) (parts : list jsstring) : jsstring :=
  match parts with
  | [] => []
  | [p] => p
  | p :: rest => p ++ sep ++ join sep rest
  end.

(** Removes the longest prefix of characters satisfying [p]. *)
Fixpoint dropWhile (p : ascii -> bool) (s : jsstring) : jsstring :=
  match s with
  | [] => []
  | c :: r => if p c then dropWhile p r else s
  end.

Fixpoint takeWhile (p : ascii -> bool) (s : jsstring) : jsstring :=
  match s with
  | [] => []
  | c :: r => if p c then c :: takeWhile p r else []
  end.

(** [s.replace(/\/+$/, '')]: drops the trailing run of slashes. *)
Definition stripTrailingSlashes (s : jsstring) : jsstring :=
  rev (dropWhile (eqc (ch 47)) (rev s)).

(** Decimal rendering of an integer, as [String(n)] prints it. *)
Definition decimal (z : Z) : jsstring :=
  js (NilZero.string_of_int (Z.to_int z)).

End JsString.
Import JsString.

(** ** Values *)

Module JsValue.

(** The values that reach the module: JSON data and [undefined]. *)
Inductive JsValue : Type :=
| JUndefined
| JNull
| JBool (b : bool)
| JNum (q : Q)
| JStr (s : jsstring)
| JArr (items : list JsValue)
| JObj (props : list (jsstring * JsValue)).

(** Errors: [new Error(message)] thrown by the module itself, the
    [TypeError] of a property access on [null] or [undefined], the
    [SyntaxError] of [JSON.parse], and errors raised by collaborators (file
    system, network, recognizer engine), identified by a label. *)
Inductive JsError : Type :=
| Error (message : jsstring)
| TypeError
| SyntaxError
| External (label : jsstring).

(** A call either returns or throws. *)
Inductive Result (A : Type) : Type :=
| Ok (a : A)
| Throw (e : JsError).

Arguments Ok {A} a.
Arguments Throw {A} e.

(** ToBoolean: [if (v)], [!v], [a || b]. *)
Definition truthy (v : JsValue) : bool :=
  match v with
  | JUndefined | JNull => false
  | JBool b => b
  | JNum q => negb (Qnum q =? 0)%Z
  | JStr s => match s with [] => false | _ => true end
  | JArr _ | JObj _ => true
  end.

(** [a || b] *)
Definition or_else (a b : JsValue) : JsValue := if truthy a then a else b.

(** [a ?? b] *)
Definition nullish (a b : JsValue) : JsValue :=
  match a with
  | JUndefined | JNull => b
  | _ => a
  end.

Fixpoint fracDigits (fuel : nat) (r den : Z) : jsstring :=
  match fuel with
  | O => []
  | S fuel' =>
      if (r =? 0)%Z then []
      else ch (48 + Z.to_nat ((r * 10) / den))
             :: fracDigits fuel' ((r * 10) mod den) den
  end.

(** [String(n)] for a number: exact for integers below 10^21 in absolute
    value and for short finite decimals such as 0.6 or 2.4 (JavaScript
    switches to exponent form from 10^21 up and below 10^-6, which this
    definition does not follow). *)
Definition numberToString (q : Q) : jsstring :=
  let q' := Qred q in
  let a := Z.abs (Qnum q') in
  let d := Zpos (Qden q') in
  (if (Qnum q' <? 0)%Z then js "-" else [])
    ++ decimal (a / d)
    ++ (if (a mod d =? 0)%Z then [] else js "." ++ fracDigits 17 (a mod d) d).

(** The text [String(v)] returns.  An array prints its elements separated
    by commas, with [null] and [undefined] elements printed as the empty
    string; a plain object prints as [[object Object]].  [String(v)] does
    not return for every value: see [printable] below. *)
Fixpoint toString (v : JsValue) : jsstring :=
  match v with
  | JUndefined => js "undefined"
  | JNull => js "null"
  | JBool true => js "true"
  | JBool false => js "false"
  | JNum q => numberToString q
  | JStr s => s
  | JArr items =>
      let element (x : JsValue) : jsstring :=
        match x with
        | JUndefined | JNull => []
        | _ => toString x
        end in
      (fix joinItems (l : list JsValue) : jsstring :=
         match l with
         | [] => []
         | [x] => element x
         | x :: rest => element x ++ js "," ++ joinItems rest
         end) items
  | JObj _ => js "[object Object]"
  end.

(** Own-property lookup in an object literal; a later duplicate key
    overrides an earlier one. *)
Fixpoint lookup (k : jsstring) (props : list (jsstring * JsValue))
  : option JsValue :=
  match props with
  | [] => None
  | (k', v) :: rest =>
      match lookup k rest with
      | Some v' => Some v'
      | None => if eqs k k' then Some v else None
      end
  end.

(** [v.k] on a value that is neither [null] nor [undefined], for the
    property names the module reads ([data], [text], [event_id], ...):
    none of them is a built-in property of strings, numbers, booleans or
    arrays, so only objects answer. *)
Definition prop (v : JsValue) (k : string) : JsValue :=
  match v with
  | JObj props =>
      match lookup (js k) props with
      | Some x => x
      | None => JUndefined
      end
  | _ => JUndefined
  end.

(** [v.k] in general: throws on [null] and [undefined]. *)
Definition getProp (v : JsValue) (k : string) : Result JsValue :=
  match v with
  | JUndefined | JNull => Throw TypeError
  | _ => Ok (prop v k)
  end.

(** [v[0]] on an array. *)
Definition first (items : list JsValue) : JsValue :=
  match items with
  | [] => JUndefined
  | x :: _ => x
  end.

(** The string behind a value with [typeof v === 'string']. *)
Definition asString (v : JsValue) : option jsstring :=
  match v with JStr s => Some s | _ => None end.

(** The elements behind a value with [Array.isArray(v)]. *)
Definition asArray (v : JsValue) : option (list JsValue) :=
  match v with JArr items => Some items | _ => None end.

(** Whether [String(v)] returns: an object whose own [toString] key hides
    the built-in method (JSON data is never callable) makes the conversion
    throw, and an array prints its elements with the same conversion. *)
Fixpoint printable (v : JsValue) : bool :=
  match v with
  | JArr items =>
      (fix all (l : list JsValue) : bool :=
         match l with
         | [] => true
         | x :: rest =>
             match x with
             | JUndefined | JNull => all rest
             | _ => printable x && all rest
             end
         end) items
  | JObj props =>
      match lookup (js "toString") props with
      | Some _ => false
      | None => true
      end
  | _ => true
  end.

(** [String(v)] with its [TypeError]. *)
Definition printed (v : JsValue) : Result jsstring :=
  if printable v then Ok (toString v) else Throw TypeError.

(** [typeof v === 'object'] *)
Definition isObjectType (v : JsValue) : bool :=
  match v with JNull | JArr _ | JObj _ => true | _ => false end.

End JsValue.
Import JsValue.

(** ** Collaborators: file system and path helpers *)

Module Platform.

(** What a path names: a regular file with its text, a directory, or an
    entry whose reading fails with the given error (no permission, I/O
    error). *)
Inductive FsEntry : Type :=
| File (contents : jsstring)
| Directory
| Unreadable (e : JsError).

Definition FileSystem := jsstring -> option FsEntry.

(** [fs.existsSync(p)] *)
Definition existsSync (fs : FileSystem) (p : jsstring) : bool :=
  match fs p with
  | Some _ => true
  | None => false
  end.

(** [fs.readFileSync(p, 'utf8')]: throws on a missing path, on a
    directory and on an entry that cannot be read. *)
Definition readFileSync (fs : FileSystem) (p : jsstring) : Result jsstring :=
  match fs p with
  | Some (File contents) => Ok contents
  | Some Directory => Throw (External (js "EISDIR"))
  | Some (Unreadable e) => Throw e
  | None => Throw (External (js "ENOENT"))
  end.

Definition SLASH : ascii := ch 47.
Definition DOT : ascii := ch 46.

(** [path.basename(p)] (POSIX): the last path component, trailing slashes
    ignored. *)
Definition basename (p : jsstring) : jsstring :=
  rev (takeWhile (fun c => negb (eqc c SLASH))
         (dropWhile (eqc SLASH) (rev p))).

(** [path.extname(p)] (POSIX), following Node's scan from the right over
    the last component: the text from the last dot on, and the empty
    string when there is no dot, when the last dot is the component's
    first character, or when the component is [..]. *)
Definition extname (p : jsstring) : jsstring :=
  let rcomp := rev (basename p) in
  let rext := takeWhile (fun c => negb (eqc c DOT)) rcomp in
  match dropWhile (fun c => negb (eqc c DOT)) rcomp with
  | [] => []
  | dot :: before =>
      match before with
      | [] => []
      | [c] => if eqc c DOT && (List.length rext =? 0) then []
               else rev (rext ++ [dot])
      | _ => rev (rext ++ [dot])
      end
  end.

End Platform.
Import Platform.

(** ** The pure helpers of src/stt.js *)

Module Stt.

(** [normalizeWhisperModel(modelName)] *)
Definition normalizeWhisperModel (modelName : JsValue) : jsstring :=
  if negb (truthy modelName) then js "base"
  else
    let normalized := trim (toLowerCase (toString modelName)) in
    if eqs normalized (js "mid") then js "medium"
    else if eqs normalized (js "large_v2") || eqs normalized (js "largev2")
         then js "large-v2"
    else normalized.

(** [normalizeGradioDevice(device)] *)
Definition normalizeGradioDevice (device : JsValue) : jsstring :=
  let raw := toLowerCase (toString (or_else device (JStr []))) in
  if eqs raw (js "gpu") || eqs raw (js "cuda") then js "cuda"
  else js "cpu".

(** [String(x ?? '').trim()] *)
Definition stringOfFirst (x : JsValue) : Result jsstring :=
  match printed (nullish x (JStr [])) with
  | Ok s => Ok (trim s)
  | Throw e => Throw e
  end.

(** [fs.readFileSync(p, 'utf8').trim()] *)
Definition readTrimmed (fs : FileSystem) (p : jsstring) : Result jsstring :=
  match readFileSync fs p with
  | Ok contents => Ok (trim contents)
  | Throw e => Throw e
  end.

(** [extractWhisperText(result)] *)
Definition extractWhisperText (fs : FileSystem) (result : JsValue)
  : Result jsstring :=
  if negb (truthy result) then Ok []
  else
    match asArray result with
    | Some items =>
        let first := first items in
        match asString (prop first "text") with
        | Some text =>
            if truthy first && isObjectType first then Ok (trim text)
            else stringOfFirst first
        | None => stringOfFirst first
        end
    | None =>
        let data := prop result "data" in
        match asArray data with
        | Some items => stringOfFirst (first items)
        | None =>
            match (if truthy data then asArray (prop data "data") else None) with
            | Some items => stringOfFirst (first items)
            | None =>
                match asString result with
                | Some s =>
                    if existsSync fs s then readTrimmed fs s
                    else Ok (trim s)
                | None =>
                    match asString (prop result "text") with
                    | Some text => Ok (trim text)
                    | None =>
                        match asString (prop result "transcription") with
                        | Some text => Ok (trim text)
                        | None =>
                            match (if truthy data
                                   then asString (prop data "text")
                                   else None) with
                            | Some text => Ok (trim text)
                            | None =>
                                match asString (prop result "outputPath") with
                                | Some p =>
                                    if existsSync fs p then readTrimmed fs p
                                    else Ok []
                                | None => Ok []
                                end
                            end
                        end
                    end
                end
            end
        end
    end.

(** The regular expression [/^\d{10,}-\d{6,}\s*/] replaced by the empty
    string: at least ten digits, a dash, at least six digits, and the white
    space after them. *)
Definition stripStamp (s : jsstring) : jsstring :=
  match dropWhile isDigit s with
  | c :: rest =>
      if (10 <=? length (takeWhile isDigit s)) && eqc c (ch 45)
         && (6 <=? length (takeWhile isDigit rest))
      then dropWhile isWhiteSpace (dropWhile isDigit rest)
      else s
  | [] => s
  end.

(** [/^\d+$/.test(s)] *)
Definition isSequenceNumber (s : jsstring) : bool :=
  match s with
  | [] => false
  | _ => forallb isDigit s
  end.

(** One position of a fixed-width pattern. *)
Inductive Pat : Type :=
| PDigit
| PSpace
| PChar (c : ascii).

Definition matchPat (p : Pat) (c : ascii) : bool :=
  match p with
  | PDigit => isDigit c
  | PSpace => isWhiteSpace c
  | PChar x => eqc x c
  end.

(** The whole string matches the pattern, position by position. *)
Fixpoint matchAll (ps : list Pat) (s : jsstring) : bool :=
  match ps, s with
  | [], [] => true
  | p :: ps', c :: s' => matchPat p c && matchAll ps' s'
  | _, _ => false
  end.

(** [\d{2}:\d{2}:\d{2},\d{3}] *)
Definition timePat : list Pat :=
  [PDigit; PDigit; PChar (ch 58); PDigit; PDigit; PChar (ch 58);
   PDigit; PDigit; PChar (ch 44); PDigit; PDigit; PDigit].

(** [/^\d{2}:\d{2}:\d{2},\d{3}\s-->\s\d{2}:\d{2}:\d{2},\d{3}$/.test(s)] *)
Definition isTimeRange (s : jsstring) : bool :=
  matchAll (timePat ++ [PSpace; PChar (ch 45); PChar (ch 45); PChar (ch 62);
                        PSpace] ++ timePat) s.

Definition dashes : jsstring := js "------------------------------------".

(** [s.startsWith('Done in ') || s === '----...----'] *)
Definition isBanner (s : jsstring) : bool :=
  startsWith (js "Done in ") s || eqs s dashes.

(** A trimmed line the loop of [stripSrt] skips. *)
Definition skipped (trimmed : jsstring) : bool :=
  match trimmed with
  | [] => true
  | _ => isSequenceNumber trimmed || isTimeRange trimmed || isBanner trimmed
  end.

(** The loop of [stripSrt]: the trimmed lines that are kept, in order. *)
Fixpoint keptLines (lines : list jsstring) : list jsstring :=
  match lines with
  | [] => []
  | line :: rest =>
      let trimmed := trim line in
      if skipped trimmed then keptLines rest
      else trimmed :: keptLines rest
  end.

(** [stripSrt(text)] on a string ([String(text || '')] is [text]). *)
Definition stripSrt (text : jsstring) : jsstring :=
  let cleaned := stripStamp (trim text) in
  let lines := splitLines cleaned in
  trim (join (js " ") (keptLines lines)).

(** [getMimeType(fileName)] *)
Definition getMimeType (fileName : jsstring) : jsstring :=
  let ext := toLowerCase (extname fileName) in
  if eqs ext (js ".wav") then js "audio/wav"
  else if eqs ext (js ".mp3") then js "audio/mpeg"
  else if eqs ext (js ".ogg") then js "audio/ogg"
  else if eqs ext (js ".flac") then js "audio/flac"
  else if eqs ext (js ".m4a") then js "audio/mp4"
  else if eqs ext (js ".aac") then js "audio/aac"
  else js "application/octet-stream".

(** [normalizeBaseUrl(url)] *)
Definition normalizeBaseUrl (url : JsValue) : jsstring :=
  stripTrailingSlashes (toString url).

End Stt.
Import Stt.

(** ** Effects: state and exceptions *)

Module Eff.

(** A computation reads and updates a state of type [S] and returns or
    throws: the meaning of an [async] function whose awaits are taken in
    program order. *)
Definition M (S A : Type) : Type := S -> Result A * S.

Definition ret {S A : Type} (a : A) : M S A := fun s => (Ok a, s).

Definition throw {S A : Type} (e : JsError) : M S A := fun s => (Throw e, s).

Definition bind {S A B : Type} (m : M S A) (k : A -> M S B) : M S B :=
  fun s =>
    match m s with
    | (Ok a, s') => k a s'
    | (Throw e, s') => (Throw e, s')
    end.

(** [try { m } catch (err) { handler(err) }] *)
Definition try_catch {S A : Type} (m : M S A) (handler : JsError -> M S A)
  : M S A :=
  fun s =>
    match m s with
    | (Ok a, s') => (Ok a, s')
    | (Throw e, s') => handler e s'
    end.

(** A pure call that may throw. *)
Definition lift {S A : Type} (r : Result A) : M S A := fun s => (r, s).

End Eff.
Import Eff.

Declare Scope eff_scope.
Delimit Scope eff_scope with eff.
Notation "x <- m ;; k" := (bind m (fun x => k))
  (at level 61, m at next level, right associativity) : eff_scope.
Notation "m ;;; k" := (bind m (fun _ => k))
  (at level 61, right associativity) : eff_scope.
Local Open Scope eff_scope.

(** ** The remote batch (Gradio) client *)

Module Http.

Inductive Method : Type := GET | POST.

(** A request body: none, [JSON.stringify(v)], or a multipart form with one
    file part ([form.append(field, new Blob([data], {type}), filename)]). *)
Inductive Body : Type :=
| NoBody
| JsonBody (v : JsValue)
| FormBody (field : jsstring) (filename : jsstring) (mimeType : jsstring)
    (data : jsstring).

Record Request : Type := mkRequest {
  method : Method;
  url : jsstring;
  body : Body
}.

Record Response : Type := mkResponse {
  ok : bool;
  status : Z;
  statusText : jsstring;
  text : jsstring
}.

(** The network answers a request, given the requests issued before it;
    [fetch] rejects when it answers with an error. *)
Definition Network := list Request -> Request -> Result Response.

(** The state of a client run is the log of the requests it issued. *)
Definition Log := list Request.

Definition fetch (net : Network) (req : Request) : M Log Response :=
  fun log => (net log req, log ++ [req]).

End Http.
Import Http.

Module Gradio.

Section Client.

(** The collaborators of the client: the network, [JSON.parse], the file
    system, [path.resolve] and the configuration object. *)
Variable net : Network.
Variable JSON_parse : jsstring -> option JsValue.
Variable fs : FileSystem.
Variable path_resolve : jsstring -> jsstring.
Variable config : JsValue.

(** [await response.json()] *)
Definition json (response : Response) : M Log JsValue :=
  match JSON_parse (text response) with
  | Some v => ret v
  | None => throw SyntaxError
  end.

(** [`${label}: ${response.status} ${response.statusText}`] *)
Definition failure (label : jsstring) (response : Response) : JsError :=
  Error (label ++ js ": " ++ decimal (status response) ++ js " "
           ++ statusText response).

(** [await fs.promises.readFile(p)] *)
Definition readFile (p : jsstring) : M Log jsstring :=
  lift (readFileSync fs p).

(** The name under which [uploadToGradio] sends a file. *)
Definition uploadName (baseName : jsstring) : jsstring :=
  let ext := toLowerCase (extname baseName) in
  match ext with
  | [] => baseName ++ js ".wav"
  | _ => baseName
  end.

(** [uploadToGradio(apiUrl, filePath)] *)
Definition uploadToGradio (apiUrl : JsValue) (filePath : jsstring)
  : M Log JsValue :=
  let resolvedPath := path_resolve filePath in
  data <- readFile resolvedPath ;;
  let baseName := basename resolvedPath in
  let name := uploadName baseName in
  let mimeType := getMimeType name in
  let form := FormBody (js "files") name mimeType data in
  let uploadUrl := normalizeBaseUrl apiUrl ++ js "/gradio_api/upload" in
  response <- fetch net (mkRequest POST uploadUrl form) ;;
  if negb (ok response) then throw (failure (js "Gradio upload failed") response)
  else
    result <- json response ;;
    match result with
    | JArr items =>
        if negb (truthy (first items))
        then throw (Error (js "Gradio upload returned no file path."))
        else ret (first items)
    | _ => throw (Error (js "Gradio upload returned no file path."))
    end.

(** [result.event_id || result.eventId || result.id] *)
Definition selectEventId (result : JsValue) : Result JsValue :=
  match getProp result "event_id" with
  | Throw e => Throw e
  | Ok a =>
      if truthy a then Ok a
      else
        let b := prop result "eventId" in
        if truthy b then Ok b else Ok (prop result "id")
  end.

(** The lines of an event-stream body that start with [data:], trimmed:
    [text.split('\n').map(trim).filter(Boolean).filter(startsWith 'data:')] *)
Definition dataLines (text : jsstring) : list jsstring :=
  filter (startsWith (js "data:"))
    (filter (fun line => match line with [] => false | _ => true end)
       (map trim (split LF text))).

(** The tail of [callGradio] once the event body has been read. *)
Definition eventPayload (text : jsstring) : Result JsValue :=
  match dataLines text with
  | [] => Throw (Error (js "Gradio event returned no data."))
  | lines =>
      let lastData :=
        trim (slice (List.length (js "data:")) (last lines [])) in
      match JSON_parse lastData with
      | Some v => Ok v
      | None => Ok (JStr lastData)
      end
  end.

(** [callGradio(apiUrl, apiName, dataArray)].  The URLs are built from the
    printed forms of [apiUrl], [apiName] and the event identifier; the
    definition covers the values that [printable] accepts (on the others
    the template literal throws a [TypeError] before the request). *)
Definition callGradio (apiUrl apiName : JsValue) (dataArray : list JsValue)
  : M Log JsValue :=
  let callUrl :=
    normalizeBaseUrl apiUrl ++ js "/gradio_api/call" ++ toString apiName in
  response <-
    fetch net
      (mkRequest POST callUrl (JsonBody (JObj [(js "data", JArr dataArray)]))) ;;
  if negb (ok response) then throw (failure (js "Gradio call failed") response)
  else
    result <- json response ;;
    eventId <- lift (selectEventId result) ;;
    if negb (truthy eventId)
    then throw (Error (js "Gradio call returned no event id."))
    else
      let eventUrl :=
        normalizeBaseUrl apiUrl ++ js "/gradio_api/call" ++ toString apiName
          ++ js "/" ++ toString eventId in
      eventResponse <- fetch net (mkRequest GET eventUrl NoBody) ;;
      if negb (ok eventResponse)
      then throw (failure (js "Gradio event failed") eventResponse)
      else lift (eventPayload (text eventResponse)).

(** [result[1][0].url] when [result] is an array whose second element is an
    array with a truthy first element that has a truthy [url]. *)
Definition subtitleUrl (result : JsValue) : option JsValue :=
  match result with
  | JArr items =>
      match nth 1 items JUndefined with
      | JArr files =>
          if truthy (first files) && truthy (prop (first files) "url")
          then Some (prop (first files) "url")
          else None
      | _ => None
      end
  | _ => None
  end.

(** [extractWhisperTextFromResult(result)] *)
Definition extractWhisperTextFromResult (result : JsValue) : M Log jsstring :=
  match subtitleUrl result with
  | Some u =>
      response <- fetch net (mkRequest GET (toString u) NoBody) ;;
      if negb (ok response)
      then throw (failure (js "Whisper output fetch failed") response)
      else ret (stripSrt (text response))
  | None =>
      rawText <- lift (extractWhisperText fs result) ;;
      ret (stripSrt rawText)
  end.

(** [GRADIO_FILE_META] *)
Definition GRADIO_FILE_META : JsValue :=
  JObj [(js "_type", JStr (js "gradio.FileData"))].

Definition str (s : string) : JsValue := JStr (js s).
Definition num (q : Q) : JsValue := JNum q.

(** The array literal [data] of [transcribeWithWhisper]. *)
Definition requestData (uploadPath : JsValue) (modelName device : jsstring)
  (options : JsValue) : list JsValue :=
  [ JArr [JObj [(js "path", uploadPath); (js "meta", GRADIO_FILE_META)]];
    JStr [];
    JBool false;
    JBool true;
    or_else (prop options "fileFormat") (str "txt");
    JBool false;
    JStr modelName;
    or_else (prop options "language") (str "Automatic Detection");
    JBool false;
    num 5;
    num (-1);
    num 0.6;
    or_else (prop options "computeType") (str "float16");
    num 5;
    num 1;
    JBool true;
    num 0.5;
    or_else (prop options "initialPrompt") (JStr []);
    num 0;
    num 2.4;
    num 1;
    num 1;
    num 0;
    or_else (prop options "prefix") (JStr []);
    JBool true;
    str "[-1]";
    num 1;
    JBool false;
    JStr (DQUOTE :: js "'([{-");
    JStr (DQUOTE :: js "'.!?:)]}");
    nullish (prop options "maxNewTokens") (num 3);
    num 30;
    nullish (prop options "hallucinationSilenceThreshold") (num 3);
    or_else (prop options "hotwords") (JStr []);
    num 0.5;
    num 1;
    num 24;
    JBool true;
    JBool false;
    num 0.5;
    num 250;
    num 9999;
    num 1000;
    num 2000;
    JBool false;
    JStr device;
    JStr [];
    JBool true;
    JBool false;
    str "UVR-MDX-NET-Inst_HQ_4";
    JStr device;
    num 256;
    JBool false;
    JBool true ].

(** The device the call selects:
    [normalizeGradioDevice(options.device || config.whisperDevice || 'cpu')] *)
Definition selectedDevice (options : JsValue) : jsstring :=
  normalizeGradioDevice
    (or_else (or_else (prop options "device") (prop config "whisperDevice"))
       (str "cpu")).

(** [transcribeWithWhisper(filePath, options)]; [options] is an object
    ([{}] by default).  The definition covers the options that are not
    [null] (on [null] the first property read throws a [TypeError], after
    the check of the configured URL and before the upload). *)
Definition transcribeWithWhisper (filePath : jsstring) (options : JsValue)
  : M Log jsstring :=
  let apiUrl := prop config "whisperApiUrl" in
  if negb (truthy apiUrl) then throw (Error (js "Missing whisperApiUrl in config."))
  else
    let modelName :=
      normalizeWhisperModel
        (or_else (or_else (prop options "model") (prop config "whisperModel"))
           (str "base")) in
    let device := selectedDevice options in
    let apiName :=
      or_else (or_else (prop options "apiName") (prop config "whisperApiName"))
        (str "/transcribe_file") in
    uploadPath <- uploadToGradio apiUrl filePath ;;
    let data := requestData uploadPath modelName device options in
    result <- callGradio apiUrl apiName data ;;
    extractWhisperTextFromResult result.

End Client.

End Gradio.
Import Gradio.

(** ** The fallback chain *)

Module Orchestrator.

Inductive Backend : Type := Primary | RemoteBatch | Offline.

Section Chain.

(** The state the three backends act on (network, file system, engine). *)
Variable S : Type.

(** [transcribeWithWhisperPrimary], [transcribeWithWhisper] and
    [transcribeWithVosk] as the chain sees them. *)
Variable whisperPrimary : jsstring -> JsValue -> M S JsValue.
Variable whisperBatch : jsstring -> JsValue -> M S JsValue.
Variable vosk : jsstring -> M S JsValue.

(** The state of an orchestrated call: the backends' state and the
    backends invoked so far, in order. *)
Definition World : Type := S * list Backend.

(** Invoking a backend records it and runs it. *)
Definition invoke {A : Type} (b : Backend) (m : M S A) : M World A :=
  fun w =>
    match m (fst w) with
    | (r, s') => (r, (s', snd w ++ [b]))
    end.

(** [transcribeWithWhisperWithFallback(filePath, options)] *)
Definition transcribeWithWhisperWithFallback (filePath : jsstring)
  (options : JsValue) : M World JsValue :=
  try_catch (invoke Primary (whisperPrimary filePath options))
    (fun err =>
       try_catch (invoke RemoteBatch (whisperBatch filePath options))
         (fun innerErr => invoke Offline (vosk filePath))).

End Chain.

End Orchestrator.
Import Orchestrator.

(** ** The offline recognizer *)

Module Vosk.

Definition Chunk := jsstring.

(** The engine's final result, as far as the module reads it:
    [finalResult?.alternatives?.[0]?.text], each link possibly absent; the
    engine's [text] is a string when it is present. *)
Record Alternative : Type := mkAlternative {
  altText : option jsstring
}.

Record FinalResult : Type := mkFinalResult {
  alternatives : option (list Alternative)
}.

(** What the module does to the engine, the process and its promise. *)
Inductive Call : Type :=
| ProcessExit
| NewRecognizer
| SetMaxAlternatives (n : nat)
| SetWords (b : bool)
| AcceptWaveform (chunk : Chunk)
| GetFinalResult
| Free
| Resolve (v : JsValue)
| Reject (e : JsError).

(** The calls made so far, the audio fed to the recognizer, and the state
    of the promise: a promise settles once, later [resolve] and [reject]
    calls have no effect. *)
Record Session : Type := mkSession {
  calls : list Call;
  fed : list Chunk;
  settled : option (Result JsValue)
}.

Definition log (c : Call) (st : Session) : Session :=
  mkSession (calls st ++ [c]) (fed st) (settled st).

Definition settle (r : Result JsValue) (st : Session) : Session :=
  mkSession (calls st) (fed st)
    (match settled st with
     | None => Some r
     | Some r0 => Some r0
     end).

Definition resolve (v : JsValue) (st : Session) : Session :=
  settle (Ok v) (log (Resolve v) st).

Definition reject (e : JsError) (st : Session) : Session :=
  settle (Throw e) (log (Reject e) st).

(** [rec.free()] *)
Definition free (st : Session) : Session := log Free st.

(** What the read stream emits. *)
Inductive StreamEvent : Type :=
| Data (chunk : Chunk)
| End
| StreamError (err : JsError).

(** How a read stream ends: with ['end'] or with ['error']. *)
Inductive Ending : Type :=
| Ended
| Failed (err : JsError).

(** A run of the read stream: its chunks in order, then one ending. *)
Record StreamRun : Type := mkRun {
  chunks : list Chunk;
  ending : Ending
}.

Definition events (run : StreamRun) : list StreamEvent :=
  map Data (chunks run)
    ++ [match ending run with
        | Ended => End
        | Failed err => StreamError err
        end].

(** The environment of one call: whether the module-level [model] is
    already set, whether [MODEL_PATH] exists, and what the constructors of
    the engine do. *)
Record Env : Type := mkEnv {
  modelCached : bool;
  modelPathExists : bool;
  newModel : Result unit;
  newRecognizer : Result unit
}.

Inductive Loaded : Type :=
| ModelReady
| ModelFailed (e : JsError)
| Exited.

(** [voskLoader()] *)
Definition voskLoader (env : Env) : Loaded :=
  if modelCached env then ModelReady
  else if negb (modelPathExists env) then Exited
  else match newModel env with
       | Ok _ => ModelReady
       | Throw e => ModelFailed e
       end.

Section Recognizer.

(** [rec.finalResult()] on the audio fed so far: a result, possibly
    [null], or an exception. *)
Variable finalResult : list Chunk -> Result (option FinalResult).

(** [finalResult?.alternatives?.[0]?.text?.trim() ?? ''] *)
Definition bestText (result : option FinalResult) : jsstring :=
  match result with
  | None => []
  | Some r =>
      match alternatives r with
      | None => []
      | Some alts =>
          match alts with
          | [] => []
          | a :: _ =>
              match altText a with
              | None => []
              | Some t => trim t
              end
          end
      end
  end.

(** The ['data'] listener. *)
Definition onData (chunk : Chunk) (st : Session) : Session :=
  mkSession (calls st ++ [AcceptWaveform chunk]) (fed st ++ [chunk])
    (settled st).

(** The ['end'] listener. *)
Definition onEnd (st : Session) : Session :=
  match finalResult (fed st) with
  | Ok result =>
      let st1 := free (log GetFinalResult st) in
      let text := bestText result in
      if truthy (JStr text) then resolve (JStr text) st1
      else resolve (JBool false) st1
  | Throw err => reject err (free (log GetFinalResult st))
  end.

(** The ['error'] listener. *)
Definition onError (err : JsError) (st : Session) : Session :=
  reject err (free st).

Definition dispatch (st : Session) (ev : StreamEvent) : Session :=
  match ev with
  | Data chunk => onData chunk st
  | End => onEnd st
  | StreamError err => onError err st
  end.

Definition idle : Session := mkSession [] [] None.

(** [transcribeWithVosk(filePath)], given what the stream opened on
    [filePath] emits. *)
Definition transcribeWithVosk (env : Env) (stream : list StreamEvent)
  : Session :=
  match voskLoader env with
  | Exited => log ProcessExit idle
  | ModelFailed e => reject e idle
  | ModelReady =>
      match newRecognizer env with
      | Throw e => reject e idle
      | Ok _ =>
          fold_left dispatch stream
            (log (SetWords true)
               (log (SetMaxAlternatives 1) (log NewRecognizer idle)))
      end
  end.

End Recognizer.

End Vosk.
Import Vosk.

(** ** The primary service client *)

Module Primary.

(** A value passed to [form.append]: the read stream opened on a path, or
    a plain value, which [FormData] converts with [String()]. *)
Inductive FormValue : Type :=
| StreamOf (path : jsstring)
| Plain (v : JsValue).

(** The one request of the client: a [POST] of a multipart form. *)
Record FormRequest : Type := mkFormRequest {
  formUrl : jsstring;
  fields : list (jsstring * FormValue)
}.

Definition FormNetwork := list FormRequest -> FormRequest -> Result Response.

Definition FormLog := list FormRequest.

(** [await fetch(url, { method: 'POST', body: form })] *)
Definition post (net : FormNetwork) (req : FormRequest) : M FormLog Response :=
  fun log => (net log req, log ++ [req]).

(** [v?.k] *)
Definition optProp (v : JsValue) (k : string) : JsValue :=
  match v with
  | JUndefined | JNull => JUndefined
  | _ => prop v k
  end.

Section Client.

Variable net : FormNetwork.
Variable JSON_parse : jsstring -> option JsValue.
Variable path_resolve : jsstring -> jsstring.
Variable config : JsValue.

(** [options.primaryUrl || config.whisperPrimaryUrl || 'http://...'] *)
Definition primaryUrl (options : JsValue) : JsValue :=
  or_else (or_else (prop options "primaryUrl") (prop config "whisperPrimaryUrl"))
    (JStr (js "http://localhost:8080/v1/audio/transcriptions")).

(** [options.primaryModel || options.model || config.whisperPrimaryModel
     || config.whisperModel || 'base'] *)
Definition primaryModel (options : JsValue) : JsValue :=
  or_else
    (or_else
       (or_else (or_else (prop options "primaryModel") (prop options "model"))
          (prop config "whisperPrimaryModel"))
       (prop config "whisperModel"))
    (JStr (js "base")).

(** [result?.text ?? result?.transcript ?? result?.transcription] *)
Definition selectText (result : JsValue) : JsValue :=
  nullish (nullish (optProp result "text") (optProp result "transcript"))
    (optProp result "transcription").

(** The parameter [options = {}]: [undefined] selects the default, and
    reading a property of [null] throws. *)
Definition optionsOrDefault (options : JsValue) : Result JsValue :=
  match options with
  | JUndefined => Ok (JObj [])
  | JNull => Throw TypeError
  | _ => Ok options
  end.

(** [transcribeWithWhisperPrimary(filePath, options)].  The model name is
    converted by [form.append] and the URL by [fetch]; either conversion
    throws before anything is sent. *)
Definition transcribeWithWhisperPrimary (filePath : jsstring)
  (options : JsValue) : M FormLog jsstring :=
  options <- lift (optionsOrDefault options) ;;
  let url := primaryUrl options in
  let modelName := primaryModel options in
  let resolvedPath := path_resolve filePath in
  _ <- lift (printed modelName) ;;
  let form :=
    [ (js "file", StreamOf resolvedPath); (js "model", Plain modelName) ] in
  target <- lift (printed url) ;;
  response <- post net (mkFormRequest target form) ;;
  if negb (ok response)
  then throw (Error (js "Primary whisper failed: " ++ decimal (status response)
                       ++ js " " ++ statusText response))
  else
    result <- match JSON_parse (text response) with
              | Some v => ret v
              | None => throw SyntaxError
              end ;;
    let text := selectText result in
    if negb (truthy text)
    then throw (Error (js "Primary whisper returned no text."))
    else
      s <- lift (printed text) ;;
      ret (trim s).

End Client.

End Primary.
Import Primary.

(** ** The older whisper.cpp variant of the module *)

Module Legacy.

(** [normalizeWhisperModel(modelName)] of the whisper.cpp variant. *)
Definition normalizeWhisperModel (modelName : JsValue) : jsstring :=
  if negb (truthy modelName) then js "base"
  else
    let normalized := trim (toLowerCase (toString modelName)) in
    if eqs normalized (js "mid") then js "medium"
    else if eqs normalized (js "large-v2") || eqs normalized (js "large_v2")
         then js "largev2"
    else normalized.


(** [extractWhisperText(result)] of the whisper.cpp variant. *)
Definition extractWhisperText (fs : FileSystem) (result : JsValue)
  : Result jsstring :=
  if negb (truthy result) then Ok []
  else
    match asString result with
    | Some s =>
        if existsSync fs s then readTrimmed fs s else Ok (trim s)
    | None =>
        match asString (prop result "text") with
        | Some text => Ok (trim text)
        | None =>
            match asString (prop result "transcription") with
            | Some text => Ok (trim text)
            | None =>
                let data := prop result "data" in
                match (if truthy data then asString (prop data "text")
                       else None) with
                | Some text => Ok (trim text)
                | None =>
                    match asString (prop result "outputPath") with
                    | Some p =>
                        if existsSync fs p then readTrimmed fs p else Ok []
                    | None => Ok []
                    end
                end
            end
        end
    end.

End Legacy.

(** * Vocabulary of the statements *)

(** A string that does not begin with white space. *)
Definition headNotSpace (s : jsstring) : Prop :=
  match s with
  | [] => True
  | c :: _ => isWhiteSpace c = false
  end.

(** The call releases the recognizer session. *)
Definition isFree (c : Call) : bool :=
  match c with Free => true | _ => false end.

(** The call resolves or rejects the promise. *)
Definition isSettle (c : Call) : bool :=
  match c with Resolve _ | Reject _ => true | _ => false end.

(** The session once the recognizer is configured. *)
Definition ready : Session :=
  log (SetWords true) (log (SetMaxAlternatives 1) (log NewRecognizer idle)).

(** [line.startsWith('data:')] *)
Definition isData (line : jsstring) : bool := startsWith (js "data:") line.

(** [Boolean(line)] *)
Definition nonEmpty (line : jsstring) : bool :=
  match line with [] => false | _ => true end.

(** What [callGradio] returns for the payload text of the last data line. *)
Definition parsedOrRaw (JSON_parse : jsstring -> option JsValue)
  (payload : jsstring) : JsValue :=
  match JSON_parse payload with
  | Some v => v
  | None => JStr payload
  end.

(** The [POST] of the call step. *)
Definition callRequest (apiUrl apiName : JsValue) (dataArray : list JsValue)
  : Request :=
  mkRequest POST
    (normalizeBaseUrl apiUrl ++ js "/gradio_api/call" ++ toString apiName)
    (JsonBody (JObj [(js "data", JArr dataArray)])).

(** The [GET] of the event poll. *)
Definition eventRequest (apiUrl apiName eventId : JsValue) : Request :=
  mkRequest GET
    (normalizeBaseUrl apiUrl ++ js "/gradio_api/call" ++ toString apiName
       ++ js "/" ++ toString eventId)
    NoBody.

(** The [POST] of the upload step. *)
Definition uploadRequest (apiUrl : JsValue) (name data : jsstring) : Request :=
  mkRequest POST (normalizeBaseUrl apiUrl ++ js "/gradio_api/upload")
    (FormBody (js "files") name (getMimeType name) data).

(** The extensions [getMimeType] recognizes. *)
Definition mimeTypes : list (string * string) :=
  [ (".wav", "audio/wav"); (".mp3", "audio/mpeg"); (".ogg", "audio/ogg");
    (".flac", "audio/flac"); (".m4a", "audio/mp4"); (".aac", "audio/aac")
  ]%string.

(** The response fields that may carry the event identifier. *)
Definition eventIdKeys : list string := ["event_id"; "eventId"; "id"]%string.

(** The [data] array a request carries in its JSON body, if any. *)
Definition sentData (req : Request) : option (list JsValue) :=
  match body req with
  | JsonBody v => asArray (prop v "data")
  | _ => None
  end.

(** The request has no JSON body. *)
Definition noJsonBody (req : Request) : Prop :=
  forall v, body req <> JsonBody v.

(** A truthy result that is neither an array nor a string and has no
    [data] array at either nesting level: the shapes tried before the
    named fields do not match. *)
Definition namedFieldsOnly (result : JsValue) : Prop :=
  truthy result = true
  /\ asArray result = None
  /\ asString result = None
  /\ asArray (prop result "data") = None
  /\ asArray (prop (prop result "data") "data") = None.

(** The event ends the stream: ['end'] or ['error']. *)
Definition isTerminal (ev : StreamEvent) : bool :=
  match ev with
  | Data _ => false
  | End | StreamError _ => true
  end.

(** The chunks a sequence of stream events carries, in order. *)
Fixpoint dataChunks (stream : list StreamEvent) : list Chunk :=
  match stream with
  | [] => []
  | Data chunk :: rest => chunk :: dataChunks rest
  | _ :: rest => dataChunks rest
  end.

(** The chunks a sequence of calls feeds to the recognizer, in order. *)
Fixpoint acceptedChunks (trace : list Call) : list Chunk :=
  match trace with
  | [] => []
  | AcceptWaveform chunk :: rest => chunk :: acceptedChunks rest
  | _ :: rest => acceptedChunks rest
  end.

(** The call needs a recognizer. *)
Definition usesRecognizer (c : Call) : bool :=
  match c with
  | AcceptWaveform _ | GetFinalResult | Free | SetMaxAlternatives _
  | SetWords _ => true
  | _ => false
  end.

(** The MIME types [getMimeType] can answer. *)
Definition mimeRange : list jsstring :=
  map js
    [ "audio/wav"; "audio/mpeg"; "audio/ogg"; "audio/flac"; "audio/mp4";
      "audio/aac"; "application/octet-stream" ]%string.

(** The form [transcribeWithWhisperPrimary] posts. *)
Definition primaryRequest (path_resolve : jsstring -> jsstring)
  (config : JsValue) (filePath : jsstring) (options : JsValue) : FormRequest :=
  mkFormRequest (toString (primaryUrl config options))
    [ (js "file", StreamOf (path_resolve filePath));
      (js "model", Plain (primaryModel config options)) ].


(** How many times a session was released. *)
Definition frees (st : Session) : nat := List.length (filter isFree (calls st)).

(** How many ['end'] and ['error'] events a stream emits. *)
Definition terminals (stream : list StreamEvent) : nat :=
  List.length (filter isTerminal stream).

(** The batch client as a backend of the chain: its text as a value. *)
Definition asBackend (m : M Log jsstring) : M Log JsValue :=
  fun log =>
    match m log with
    | (Ok t, log') => (Ok (JStr t), log')
    | (Throw e, log') => (Throw e, log')
    end.

(** The elements [extractWhisperText] may print are printable: the first
    element of the result, of its [data] or of its nested [data], when
    that is an array. *)
Definition printsFirst (result : JsValue) : Prop :=
  forall items,
    asArray result = Some items
    \/ asArray (prop result "data") = Some items
    \/ asArray (prop (prop result "data") "data") = Some items ->
    printable (first items) = true.

(** The paths [extractWhisperText] may read can be read when they exist:
    the result itself when it is a string, and its [outputPath]. *)
Definition readsFiles (fs : FileSystem) (result : JsValue) : Prop :=
  forall p,
    asString result = Some p \/ asString (prop result "outputPath") = Some p ->
    existsSync fs p = true ->
    exists contents, readFileSync fs p = Ok contents.

(** Not empty, no white space at either end. *)
Definition tight (l : jsstring) : Prop :=
  l <> [] /\ headNotSpace l /\ trimEnd l = l.

(** * Test doubles *)

(** An engine whose final decode throws. *)
Definition decodeFails (fed : list Chunk) : Result (option FinalResult) :=
  Throw (External (js "decode")).

(** An engine that hears ["hello"]. *)
Definition decodeHello (fed : list Chunk) : Result (option FinalResult) :=
  Ok (Some (mkFinalResult (Some [mkAlternative (Some (js " hello "))]))).

(** An engine that hears nothing. *)
Definition decodeSilence (fed : list Chunk) : Result (option FinalResult) :=
  Ok (Some (mkFinalResult (Some [mkAlternative (Some (js "  "))]))).

(** The model is already loaded and the recognizer can be built. *)
Definition warmEnv : Env := mkEnv true true (Ok tt) (Ok tt).

(** A stream of two chunks that ends normally. *)
Definition twoChunks : StreamRun := mkRun [js "ab"; js "cd"] Ended.

(** A stub backend that throws; the state counts the backend calls. *)
Definition throwing (label : string) : M nat JsValue :=
  fun calls => (Throw (Error (js label)), Nat.succ calls).

(** A stub backend that returns [v]. *)
Definition returning (v : JsValue) : M nat JsValue :=
  fun calls => (Ok v, Nat.succ calls).

(** [s] between double quotes. *)
Definition quoted (s : string) : jsstring := [DQUOTE] ++ js s ++ [DQUOTE].

(** The event stream of the end-to-end scenario: two data lines. *)
Definition twoEvents : jsstring :=
  js "data: [1,[" ++ quoted "hi" ++ js "]]" ++ [LF]
    ++ js "data: [2,[" ++ quoted "final" ++ js "]]" ++ [LF].

(** The payload of its last data line. *)
Definition finalEvent : jsstring := js "[2,[" ++ quoted "final" ++ js "]]".

(** A [JSON.parse] that knows the bodies of the exchange. *)
Definition tableParse (table : list (jsstring * JsValue)) (s : jsstring)
  : option JsValue :=
  match find (fun entry => eqs s (fst entry)) table with
  | Some entry => Some (snd entry)
  | None => None
  end.

(** The bodies the scripted service answers with. *)
Definition uploadReply : jsstring := js "[" ++ quoted "/tmp/gradio/a.wav" ++ js "]".

Definition callReply : jsstring :=
  js "{" ++ quoted "event_id" ++ js ":" ++ quoted "e1" ++ js "}".

Definition emptyIdReply : jsstring :=
  js "{" ++ quoted "event_id" ++ js ":" ++ [DQUOTE; DQUOTE] ++ js "}".

Definition scriptedParse : jsstring -> option JsValue :=
  tableParse
    [ (uploadReply, JArr [JStr (js "/tmp/gradio/a.wav")]);
      (callReply, JObj [(js "event_id", JStr (js "e1"))]);
      (emptyIdReply, JObj [(js "event_id", JStr [])]);
      (finalEvent, JArr [JNum 2; JArr [JStr (js "final")]]) ].

(** A network that answers the n-th request of a run with the n-th reply
    of a script, status 200. *)
Definition scriptedNet (replies : list jsstring) : Network :=
  fun log req =>
    match nth_error replies (List.length log) with
    | Some reply => Ok (mkResponse true 200 (js "OK") reply)
    | None => Throw (External (js "ECONNREFUSED"))
    end.

(** The base URL and the API name of the scripted service. *)
Definition service : JsValue := JStr (js "http://whisper.local/").

Definition transcribeFile : JsValue := JStr (js "/transcribe_file").

(** A file system with one extensionless recording and one MP3. *)
Definition recordings : FileSystem :=
  fun p =>
    if eqs p (js "/srv/audio/clip") then Some (File (js "RIFF"))
    else if eqs p (js "/srv/audio/Talk.MP3") then Some (File (js "ID3"))
    else None.

(** [path.resolve] on paths that are already absolute. *)
Definition absolute (p : jsstring) : jsstring := p.

(** A configuration that names the service and asks for the GPU. *)
Definition gpuConfig : JsValue :=
  JObj [ (js "whisperApiUrl", service);
         (js "whisperDevice", JStr (js "GPU")) ].

(** The requests of a complete scripted transcription. *)
Definition scriptedRun : Log :=
  snd (transcribeWithWhisper (scriptedNet [uploadReply; callReply; twoEvents])
         scriptedParse recordings absolute gpuConfig
         (js "/srv/audio/clip") (JObj []) []).

(** A primary service that answers every request with [reply], status
    200. *)
Definition formNet (reply : jsstring) : FormNetwork :=
  fun log req => Ok (mkResponse true 200 (js "OK") reply).

(** A reply whose [text] is empty while [transcript] carries the text. *)
Definition maskedReply : jsstring :=
  js "{" ++ quoted "text" ++ js ":" ++ [DQUOTE; DQUOTE] ++ js ","
    ++ quoted "transcript" ++ js ":" ++ quoted "hello" ++ js "}".

(** A reply with the text under [transcript] only. *)
Definition transcriptReply : jsstring :=
  js "{" ++ quoted "transcript" ++ js ":" ++ quoted " hello " ++ js "}".

Definition primaryParse : jsstring -> option JsValue :=
  tableParse
    [ (maskedReply,
       JObj [(js "text", JStr []); (js "transcript", JStr (js "hello"))]);
      (transcriptReply, JObj [(js "transcript", JStr (js " hello "))]) ].

(** An object whose own [toString] key hides the built-in method. *)
Definition unprintable : JsValue := JObj [(js "toString", JNum 1)].

(** A file system where [/srv/audio] is a directory. *)
Definition withDirectory : FileSystem :=
  fun p => if eqs p (js "/srv/audio") then Some Directory else recordings p.

(** * Properties *)

Arguments eqc : simpl never.
Arguments isWhiteSpace : simpl never.
Arguments isDigit : simpl never.
Arguments lowerChar : simpl never.

(** ** The embedding on small inputs *)

Section Checks.

Example trim_check : trim (js "  a b  ") = js "a b".
Proof. reflexivity. Qed.

Example toLowerCase_check : toLowerCase (js "MiD_v2") = js "mid_v2".
Proof. reflexivity. Qed.

Example splitLines_check :
  splitLines (js "a" ++ [CR; LF] ++ js "b" ++ [LF] ++ [CR] ++ js "c")
  = [js "a"; js "b"; CR :: js "c"].
Proof. reflexivity. Qed.

Example toString_check :
  toString (JArr [JNum 0.6; JNull; JNum (-3); JArr [JStr (js "a"); JNum 2.4]])
  = js "0.6,,-3,a,2.4".
Proof. reflexivity. Qed.

Example extname_check :
  map extname
    [js "a.wav"; js ".bashrc"; js "file."; js ".."; js "..."; js "a";
     js "/x/y.tar.gz"; js "..wav"; js ".wav"; js "a.b/"]
  = [js ".wav"; []; js "."; []; js "."; []; js ".gz"; js ".wav"; [];
     js ".b"].
Proof. reflexivity. Qed.

Example normalizeGradioDevice_check :
  map normalizeGradioDevice
    [JStr (js "GPU"); JStr (js "cuda"); JStr (js "tpu"); JUndefined]
  = [js "cuda"; js "cuda"; js "cpu"; js "cpu"].
Proof. reflexivity. Qed.

Example stripSrt_check :
  stripSrt (js "1" ++ [LF] ++ js "00:00:01,000 --> 00:00:02,500" ++ [CR; LF]
              ++ js " hello  " ++ [LF] ++ js "Done in 3s")
  = js "hello".
Proof. reflexivity. Qed.

Example stripStamp_check :
  stripSrt (js "1234567890-123456   hello") = js "hello".
Proof. reflexivity. Qed.

Example scriptedRun_check :
  List.length scriptedRun = 3
  /\ map method scriptedRun = [POST; POST; GET].
Proof. split; reflexivity. Qed.

(** The payload [[2,["final"]]] is an array whose first element prints as
    ["2"], a sequence-number line for the cleanup. *)
Example transcription_check :
  fst (transcribeWithWhisper (scriptedNet [uploadReply; callReply; twoEvents])
         scriptedParse recordings absolute gpuConfig
         (js "/srv/audio/clip") (JObj []) [])
  = Ok [].
Proof. reflexivity. Qed.

End Checks.

(** ** Strings *)

Section StringFacts.

Lemma eqc_true (a b : ascii) : eqc a b = true <-> a = b.
Proof. unfold eqc. apply Ascii.eqb_eq. Qed.

Lemma eqc_refl (a : ascii) : eqc a a = true.
Proof. apply eqc_true. reflexivity. Qed.

Lemma eqs_true (a b : jsstring) : eqs a b = true <-> a = b.
Proof.
  revert b. induction a as [|x a IH]; intros [|y b]; simpl;
    try (split; [discriminate | discriminate]); try tauto.
  rewrite andb_true_iff, eqc_true, IH. split.
  - intros [-> ->]. reflexivity.
  - intros E. injection E as -> ->. auto.
Qed.

Lemma eqs_refl (a : jsstring) : eqs a a = true.
Proof. apply eqs_true. reflexivity. Qed.

Lemma eqs_false (a b : jsstring) : eqs a b = false <-> a <> b.
Proof.
  split.
  - intros E H. apply eqs_true in H. congruence.
  - intros H. destruct (eqs a b) eqn:E; [|reflexivity].
    apply eqs_true in E. contradiction.
Qed.

Lemma lowerChar_idem (c : ascii) : lowerChar (lowerChar c) = lowerChar c.
Proof. destruct c as [[] [] [] [] [] [] [] []]; reflexivity. Qed.

Lemma isWhiteSpace_lowerChar (c : ascii) :
  isWhiteSpace (lowerChar c) = isWhiteSpace c.
Proof. destruct c as [[] [] [] [] [] [] [] []]; reflexivity. Qed.

Lemma toLowerCase_idem (s : jsstring) :
  toLowerCase (toLowerCase s) = toLowerCase s.
Proof.
  unfold toLowerCase. rewrite map_map. apply map_ext, lowerChar_idem.
Qed.

Lemma trimStart_lower (s : jsstring) :
  trimStart (toLowerCase s) = toLowerCase (trimStart s).
Proof.
  induction s as [|c s IH]; simpl; [reflexivity|].
  rewrite isWhiteSpace_lowerChar. destruct (isWhiteSpace c); auto.
Qed.

Lemma trimEnd_lower (s : jsstring) :
  trimEnd (toLowerCase s) = toLowerCase (trimEnd s).
Proof.
  unfold toLowerCase.
  induction s as [|c s IH]; simpl; [reflexivity|].
  rewrite IH, isWhiteSpace_lowerChar.
  destruct (trimEnd s); simpl; [destruct (isWhiteSpace c)|]; reflexivity.
Qed.

Lemma trim_lower (s : jsstring) : trim (toLowerCase s) = toLowerCase (trim s).
Proof. unfold trim. rewrite trimStart_lower, trimEnd_lower. reflexivity. Qed.

Lemma trimStart_head (s : jsstring) : headNotSpace (trimStart s).
Proof.
  induction s as [|c s IH]; simpl; [exact I|].
  destruct (isWhiteSpace c) eqn:E; [exact IH | exact E].
Qed.

Lemma trimStart_fixed (s : jsstring) : headNotSpace s -> trimStart s = s.
Proof. destruct s as [|c s]; simpl; [reflexivity|]. intros ->. reflexivity. Qed.

Lemma trimEnd_head (s : jsstring) : headNotSpace s -> headNotSpace (trimEnd s).
Proof.
  destruct s as [|c s]; simpl; [auto|]. intros H.
  destruct (trimEnd s); [rewrite H|]; exact H.
Qed.

Lemma trimEnd_idem (s : jsstring) : trimEnd (trimEnd s) = trimEnd s.
Proof.
  induction s as [|c s IH]; simpl; [reflexivity|].
  destruct (trimEnd s) as [|d r] eqn:E.
  - destruct (isWhiteSpace c) eqn:W; simpl; [reflexivity|]. rewrite W. reflexivity.
  - change (trimEnd (c :: d :: r)) with
      (match trimEnd (d :: r) with
       | [] => if isWhiteSpace c then [] else [c]
       | r' => c :: r'
       end).
    rewrite IH. reflexivity.
Qed.

Lemma trim_idem (s : jsstring) : trim (trim s) = trim s.
Proof.
  unfold trim.
  rewrite trimStart_fixed by apply trimEnd_head, trimStart_head.
  apply trimEnd_idem.
Qed.

Lemma trimStart_incl (s : jsstring) (c : ascii) : In c (trimStart s) -> In c s.
Proof.
  induction s as [|d s IH]; simpl; [auto|].
  destruct (isWhiteSpace d); simpl; auto.
Qed.

Lemma trimEnd_incl (s : jsstring) (c : ascii) : In c (trimEnd s) -> In c s.
Proof.
  induction s as [|d s IH]; simpl; [auto|].
  destruct (trimEnd s) as [|e r].
  - destruct (isWhiteSpace d); simpl; tauto.
  - intros [H|H]; [left; exact H | right; apply IH; exact H].
Qed.

Lemma trim_incl (s : jsstring) (c : ascii) : In c (trim s) -> In c s.
Proof. intros H. apply trimStart_incl, trimEnd_incl, H. Qed.

End StringFacts.

(** ** Model-name normalization *)

Section ModelName.

Lemma normalize_cases (v : JsValue) :
  truthy v = true ->
  let n := trim (toLowerCase (toString v)) in
  normalizeWhisperModel v =
    if eqs n (js "mid") then js "medium"
    else if eqs n (js "large_v2") || eqs n (js "largev2") then js "large-v2"
    else n.
Proof. intros H. unfold normalizeWhisperModel. rewrite H. reflexivity. Qed.

Lemma normalized_fixed (n : jsstring) :
  n <> [] -> trim (toLowerCase n) = n ->
  normalizeWhisperModel (JStr n) =
    if eqs n (js "mid") then js "medium"
    else if eqs n (js "large_v2") || eqs n (js "largev2") then js "large-v2"
    else n.
Proof.
  intros Hne Hfix. rewrite normalize_cases.
  - simpl toString. cbv zeta. rewrite Hfix. reflexivity.
  - destruct n; [contradiction | reflexivity].
Qed.

Lemma trim_lower_fixed (s : jsstring) :
  trim (toLowerCase (trim (toLowerCase s))) = trim (toLowerCase s).
Proof.
  rewrite (trim_lower (trim (toLowerCase s))), trim_idem, <- trim_lower.
  rewrite toLowerCase_idem. reflexivity.
Qed.

End ModelName.

Section ModelNameClaims.

(** C6 (as stated, refuted).  Normalization is not stable on every input:
    a name made of white space only is truthy, so it is lowercased and
    trimmed to the empty string, and the empty string is falsy, so a second
    normalization answers ["base"]. *)
Lemma normalizeWhisperModel_not_stable :
  normalizeWhisperModel (JStr (js " ")) = []
  /\ normalizeWhisperModel (JStr (normalizeWhisperModel (JStr (js " "))))
     = js "base"
  /\ normalizeWhisperModel (JStr (normalizeWhisperModel (JStr (js " "))))
     <> normalizeWhisperModel (JStr (js " ")).
Proof. repeat split; try reflexivity. vm_compute. discriminate. Qed.

(** C6 (amended).  Model-name normalization maps ["MID"] to ["medium"],
    ["large_v2"] and ["largev2"] to ["large-v2"], and [undefined] and every
    other falsy input to ["base"].  For every input that [String()] can
    print (on the others [String(modelName)] throws a [TypeError]) it
    returns: the lowercased, trimmed text for every other name; the empty
    string exactly for truthy inputs whose text is white space only; and
    normalizing twice equals normalizing once whenever the normalized name
    is not empty. *)
Theorem normalizeWhisperModel_stable :
  normalizeWhisperModel (JStr (js "MID")) = js "medium"
  /\ normalizeWhisperModel (JStr (js "large_v2")) = js "large-v2"
  /\ normalizeWhisperModel (JStr (js "largev2")) = js "large-v2"
  /\ normalizeWhisperModel JUndefined = js "base"
  /\ (forall v, truthy v = false -> normalizeWhisperModel v = js "base")
  /\ (forall v, printable v = true -> truthy v = true ->
        let n := trim (toLowerCase (toString v)) in
        n <> js "mid" -> n <> js "large_v2" -> n <> js "largev2" ->
        normalizeWhisperModel v = n)
  /\ (forall v, printable v = true ->
        (normalizeWhisperModel v = [] <->
         truthy v = true /\ trim (toLowerCase (toString v)) = []))
  /\ (forall v, printable v = true -> normalizeWhisperModel v <> [] ->
        normalizeWhisperModel (JStr (normalizeWhisperModel v))
        = normalizeWhisperModel v).
Proof.
  repeat match goal with |- _ /\ _ => split end; try reflexivity.
  - intros v H. unfold normalizeWhisperModel. rewrite H. reflexivity.
  - intros v _ H n H1 H2 H3. rewrite (normalize_cases v H). fold n.
    apply eqs_false in H1, H2, H3. rewrite H1, H2, H3. reflexivity.
  - intros v _. destruct (truthy v) eqn:T.
    + rewrite (normalize_cases v T). cbv zeta.
      set (n := trim (toLowerCase (toString v))).
      destruct (eqs n (js "mid")) eqn:E1;
        [apply eqs_true in E1; rewrite E1; split;
         [discriminate | intros [_ H]; discriminate]|].
      destruct (eqs n (js "large_v2")) eqn:E2;
        [apply eqs_true in E2; rewrite E2; split;
         [discriminate | intros [_ H]; discriminate]|].
      destruct (eqs n (js "largev2")) eqn:E3;
        [apply eqs_true in E3; rewrite E3; split;
         [discriminate | intros [_ H]; discriminate]|].
      simpl. tauto.
    + unfold normalizeWhisperModel. rewrite T. simpl. split.
      * discriminate.
      * intros [H _]. discriminate.
  - intros v _ Hne. destruct (truthy v) eqn:T.
    + rewrite (normalize_cases v T) in *. cbv zeta in *.
      set (n := trim (toLowerCase (toString v))) in *.
      assert (Hfix : trim (toLowerCase n) = n) by apply trim_lower_fixed.
      destruct (eqs n (js "mid")) eqn:E1; [reflexivity|].
      destruct (eqs n (js "large_v2") || eqs n (js "largev2")) eqn:E2;
        [reflexivity|].
      rewrite (normalized_fixed Hne Hfix), E1, E2. reflexivity.
    + unfold normalizeWhisperModel at 2 3. rewrite T. reflexivity.
Qed.

Lemma normalizeWhisperModel_stable_witness :
  normalizeWhisperModel (JStr (js " Small ")) <> []
  /\ normalizeWhisperModel (JStr (normalizeWhisperModel (JStr (js " Small "))))
     = normalizeWhisperModel (JStr (js " Small ")).
Proof.
  assert (H : normalizeWhisperModel (JStr (js " Small ")) <> [])
    by (vm_compute; discriminate).
  split; [exact H|].
  exact (proj2 (proj2 (proj2 (proj2 (proj2 (proj2 (proj2
           normalizeWhisperModel_stable))))))
           (JStr (js " Small ")) eq_refl H).
Defined.

End ModelNameClaims.

(** ** Subtitle cleanup *)

Section SubtitleCleanup.

Lemma startsWith_LF (r : jsstring) :
  startsWith [LF] r = true -> In LF r.
Proof.
  destruct r as [|d r]; simpl; [discriminate|].
  rewrite andb_true_r. intros H. apply eqc_true in H. left. auto.
Qed.

Lemma splitLines_single (s : jsstring) : ~ In LF s -> splitLines s = [s].
Proof.
  induction s as [|c r IH]; [reflexivity|]. intros H.
  cbn [splitLines]. destruct (eqc c LF) eqn:E.
  - apply eqc_true in E. simpl in H. tauto.
  - destruct (startsWith [LF] r) eqn:F.
    + apply startsWith_LF in F. simpl in H. tauto.
    + rewrite andb_false_r, IH by (simpl in H; tauto). reflexivity.
Qed.

Lemma splitLines_noLF (s l : jsstring) : In l (splitLines s) -> ~ In LF l.
Proof.
  revert l. induction s as [|c r IH]; cbn [splitLines]; intros l.
  - intros [<-|[]]. simpl. tauto.
  - destruct (eqc c LF) eqn:E.
    + intros [<-|H]; [simpl; tauto | apply IH, H].
    + destruct (eqc c CR && startsWith [LF] r); [apply IH|].
      destruct (splitLines r) as [|l0 ls].
      * intros [<-|[]]. simpl. intros [H|[]]. subst c.
        rewrite eqc_refl in E. discriminate.
      * intros [<-|H]; [|apply IH; right; exact H].
        simpl. intros [H|H].
        -- subst c. rewrite eqc_refl in E. discriminate.
        -- apply (IH l0); [left; reflexivity | exact H].
Qed.

Lemma keptLines_trimmed (lines : list jsstring) (l : jsstring) :
  In l (keptLines lines) -> exists line, In line lines /\ l = trim line.
Proof.
  induction lines as [|x rest IH]; simpl; [tauto|].
  destruct (skipped (trim x)).
  - intros H. destruct (IH H) as (line & H1 & H2). exists line. tauto.
  - intros [<-|H].
    + exists x. tauto.
    + destruct (IH H) as (line & H1 & H2). exists line. tauto.
Qed.

Lemma join_in (sep : jsstring) (parts : list jsstring) (c : ascii) :
  In c (join sep parts) -> In c sep \/ exists p, In p parts /\ In c p.
Proof.
  induction parts as [|p rest IH]; simpl; [tauto|].
  destruct rest as [|q rest'].
  - intros H. right. exists p. tauto.
  - rewrite !in_app_iff. intros [H|[H|H]].
    + right. exists p. tauto.
    + left. exact H.
    + destruct (IH H) as [H'|(p' & H1 & H2)]; [left; exact H'|].
      right. exists p'. tauto.
Qed.

Lemma stripSrt_noLF (x : jsstring) : ~ In LF (stripSrt x).
Proof.
  unfold stripSrt. intros H. apply trim_incl, join_in in H.
  destruct H as [H|(p & H1 & H2)].
  - simpl in H. destruct H as [H|[]]. discriminate.
  - apply keptLines_trimmed in H1. destruct H1 as (line & H3 & ->).
    apply trim_incl in H2. exact (splitLines_noLF _ _ H3 H2).
Qed.

Lemma stripSrt_trimmed (x : jsstring) : trim (stripSrt x) = stripSrt x.
Proof. unfold stripSrt. apply trim_idem. Qed.

Lemma stripSrt_trim (x : jsstring) : stripSrt (trim x) = stripSrt x.
Proof. unfold stripSrt. rewrite trim_idem. reflexivity. Qed.

(** A trimmed single line that carries no stamp and that the loop keeps is
    returned as it is. *)
Lemma stripSrt_fixed (y : jsstring) :
  trim y = y -> ~ In LF y -> stripStamp y = y ->
  isSequenceNumber y = false -> isTimeRange y = false -> isBanner y = false ->
  stripSrt y = y.
Proof.
  intros Ht Hl Hs H1 H2 H3. unfold stripSrt.
  rewrite Ht, Hs, (splitLines_single _ Hl). simpl. rewrite Ht.
  unfold skipped. destruct y as [|c r]; [reflexivity|].
  rewrite H1, H2, H3. simpl. exact Ht.
Qed.

End SubtitleCleanup.

Section JoinedLines.

Lemma trim_tight (line : jsstring) : trim line <> [] -> tight (trim line).
Proof.
  intros H. split; [exact H|]. split.
  - unfold trim. apply trimEnd_head, trimStart_head.
  - unfold trim. apply trimEnd_idem.
Qed.

Lemma keptLines_tight (lines : list jsstring) (l : jsstring) :
  In l (keptLines lines) -> tight l.
Proof.
  induction lines as [|x rest IH]; simpl; [tauto|].
  destruct (skipped (trim x)) eqn:E; [exact IH|].
  intros [<-|H]; [|exact (IH H)].
  apply trim_tight. intros H. rewrite H in E. discriminate.
Qed.

Lemma trimEnd_app (a b : jsstring) :
  trimEnd b <> [] -> trimEnd (a ++ b) = a ++ trimEnd b.
Proof.
  intros H. induction a as [|c a IH]; [reflexivity|].
  cbn [app trimEnd]. rewrite IH.
  destruct (a ++ trimEnd b) eqn:E; [|reflexivity].
  apply app_eq_nil in E. destruct E as [_ E]. contradiction.
Qed.

Lemma join_starts (sep l : jsstring) (rest : list jsstring) :
  exists tail, join sep (l :: rest) = l ++ tail.
Proof.
  destruct rest; cbn [join]; [exists []; rewrite app_nil_r|]; eauto.
Qed.

Lemma join_tight (parts : list jsstring) :
  (forall l, In l parts -> tight l) ->
  trimEnd (join (js " ") parts) = join (js " ") parts
  /\ (parts <> [] -> join (js " ") parts <> []).
Proof.
  induction parts as [|l rest IH]; intros H.
  - split; [reflexivity | intros C; contradiction].
  - destruct (H l (or_introl eq_refl)) as (Hne & _ & Hend).
    assert (Hrest : forall x, In x rest -> tight x)
      by (intros x Hx; apply H; right; exact Hx).
    destruct (IH Hrest) as [IH1 IH2]. split.
    + destruct rest as [|l2 r]; [exact Hend|].
      change (join (js " ") (l :: l2 :: r))
        with (l ++ js " " ++ join (js " ") (l2 :: r)).
      assert (Hj : join (js " ") (l2 :: r) <> []) by (apply IH2; discriminate).
      assert (Hs : trimEnd (js " " ++ join (js " ") (l2 :: r))
                   = js " " ++ join (js " ") (l2 :: r)).
      { rewrite trimEnd_app by (rewrite IH1; exact Hj). rewrite IH1.
        reflexivity. }
      rewrite trimEnd_app; rewrite Hs; [reflexivity|].
      destruct (join (js " ") (l2 :: r)); discriminate.
    + intros _. destruct (join_starts (js " ") l rest) as (tail & ->).
      destruct l; [contradiction | discriminate].
Qed.

Lemma trim_join_tight (parts : list jsstring) :
  (forall l, In l parts -> tight l) ->
  trim (join (js " ") parts) = join (js " ") parts.
Proof.
  intros H. unfold trim. rewrite trimStart_fixed; [apply join_tight, H|].
  destruct parts as [|l rest]; [exact I|].
  destruct (H l (or_introl eq_refl)) as (Hne & Hh & _).
  destruct (join_starts (js " ") l rest) as (tail & ->).
  destruct l; [contradiction | exact Hh].
Qed.

Lemma keptLines_plain (lines : list jsstring) :
  (forall line, In line lines ->
     isSequenceNumber (trim line) = false
     /\ isTimeRange (trim line) = false
     /\ isBanner (trim line) = false) ->
  keptLines lines = filter nonEmpty (map trim lines).
Proof.
  induction lines as [|x rest IH]; intros H; [reflexivity|].
  cbn [keptLines map filter].
  destruct (H x (or_introl eq_refl)) as (H1 & H2 & H3).
  rewrite IH by (intros line Hl; apply H; right; exact Hl).
  unfold skipped. destruct (trim x) as [|c r]; [reflexivity|].
  rewrite H1, H2, H3. reflexivity.
Qed.

End JoinedLines.

Section SubtitleCleanupClaims.

(** C3 (as stated, refuted).  Cleanup is not idempotent on every input: two
    kept lines ["Done"] and ["in 5s"] are joined into ["Done in 5s"], which
    a second cleanup drops as a banner line; and a sentence behind a
    numeric stamp, with no digits-only, time-range or banner line, loses
    the stamp. *)
Lemma stripSrt_not_idempotent :
  stripSrt (js "Done" ++ [LF] ++ js "in 5s") = js "Done in 5s"
  /\ stripSrt (stripSrt (js "Done" ++ [LF] ++ js "in 5s")) = []
  /\ stripSrt (stripSrt (js "Done" ++ [LF] ++ js "in 5s"))
     <> stripSrt (js "Done" ++ [LF] ++ js "in 5s")
  /\ stripSrt (js "1234567890-123456 hello") = js "hello".
Proof. repeat split; try reflexivity. vm_compute. discriminate. Qed.

(** C3 (amended).  The cleaned text is the kept lines, trimmed and joined
    by single spaces: a single trimmed line.  Cleaning it again returns it
    unchanged whenever it does not begin with a numeric stamp and is not
    itself a digits-only, time-range or banner line.  A text that does not
    begin with a numeric stamp and has no digits-only, time-range or
    banner line is returned as its non-blank lines, trimmed and joined by
    single spaces; when it is one line, that is the text itself without
    the white space around it. *)
Theorem stripSrt_idempotent_on_clean :
  (forall x,
      stripSrt x
      = join (js " ") (keptLines (splitLines (stripStamp (trim x)))))
  /\ (forall x, ~ In LF (stripSrt x) /\ trim (stripSrt x) = stripSrt x)
  /\ (forall x,
        stripStamp (stripSrt x) = stripSrt x ->
        isSequenceNumber (stripSrt x) = false ->
        isTimeRange (stripSrt x) = false ->
        isBanner (stripSrt x) = false ->
        stripSrt (stripSrt x) = stripSrt x)
  /\ (forall x,
        stripStamp (trim x) = trim x ->
        (forall line,
            In line (splitLines (trim x)) ->
            isSequenceNumber (trim line) = false
            /\ isTimeRange (trim line) = false
            /\ isBanner (trim line) = false) ->
        stripSrt x
        = join (js " ") (filter nonEmpty (map trim (splitLines (trim x)))))
  /\ (forall x,
        ~ In LF x ->
        stripStamp (trim x) = trim x ->
        isSequenceNumber (trim x) = false ->
        isTimeRange (trim x) = false ->
        isBanner (trim x) = false ->
        stripSrt x = trim x).
Proof.
  assert (Hjoin : forall x,
             stripSrt x
             = join (js " ") (keptLines (splitLines (stripStamp (trim x))))).
  { intros x. unfold stripSrt. apply trim_join_tight.
    intros l. apply keptLines_tight. }
  split; [exact Hjoin|]. split; [|split; [|split]].
  - intros x. split; [apply stripSrt_noLF | apply stripSrt_trimmed].
  - intros x Hs H1 H2 H3.
    apply stripSrt_fixed; auto using stripSrt_trimmed, stripSrt_noLF.
  - intros x Hs Hlines. rewrite Hjoin, Hs, (keptLines_plain _ Hlines).
    reflexivity.
  - intros x Hl Hs H1 H2 H3. rewrite <- stripSrt_trim.
    apply stripSrt_fixed; auto using trim_idem.
    intros H. apply Hl, trim_incl, H.
Qed.

Lemma stripSrt_idempotent_on_clean_witness :
  stripSrt (stripSrt (js "1" ++ [LF] ++ js " hello  " ++ [CR; LF] ++ js "world"))
  = stripSrt (js "1" ++ [LF] ++ js " hello  " ++ [CR; LF] ++ js "world")
  /\ stripSrt (js " hello " ++ [LF; LF] ++ js "  world  " ++ [CR; LF]
                 ++ js "again ")
     = js "hello world again"
  /\ stripSrt (js "  plain sentence ") = js "plain sentence".
Proof.
  split; [|split].
  - apply (proj1 (proj2 (proj2 stripSrt_idempotent_on_clean))); reflexivity.
  - refine (eq_trans
              (proj1 (proj2 (proj2 (proj2 stripSrt_idempotent_on_clean)))
                 (js " hello " ++ [LF; LF] ++ js "  world  " ++ [CR; LF]
                    ++ js "again ") eq_refl _) eq_refl).
    intros line H.
    change (In line [js "hello "; []; js "  world  "; js "again"]) in H.
    simpl in H. decompose [or] H; try contradiction; subst line;
      repeat split.
  - apply (proj2 (proj2 (proj2 (proj2 stripSrt_idempotent_on_clean)))
             (js "  plain sentence ")); try reflexivity.
    simpl. intros H. decompose [or] H; discriminate || assumption.
Defined.

End SubtitleCleanupClaims.

(** ** The offline recognizer *)

Section OfflineRecognizer.

Variable finalResult : list Chunk -> Result (option FinalResult).

Lemma feed_chunks (cs : list Chunk) (st : Session) :
  fold_left (dispatch finalResult) (map Data cs) st
  = mkSession (calls st ++ map AcceptWaveform cs) (fed st ++ cs) (settled st).
Proof.
  revert st. induction cs as [|c cs IH]; intros st; simpl.
  - rewrite !app_nil_r. destruct st; reflexivity.
  - rewrite IH. unfold onData. simpl. rewrite <- !app_assoc. reflexivity.
Qed.

Lemma transcribeWithVosk_run (env : Env) (run : StreamRun) :
  voskLoader env = ModelReady -> newRecognizer env = Ok tt ->
  transcribeWithVosk finalResult env (events run)
  = dispatch finalResult
      (mkSession (calls ready ++ map AcceptWaveform (chunks run))
         (chunks run) None)
      (match ending run with Ended => End | Failed err => StreamError err end).
Proof.
  intros Hl Hr. unfold transcribeWithVosk, events. rewrite Hl, Hr.
  rewrite fold_left_app, feed_chunks. reflexivity.
Qed.

Lemma no_free_in_feed (cs : list Chunk) :
  filter isFree (map AcceptWaveform cs) = [].
Proof. induction cs; simpl; auto. Qed.

Lemma no_settle_in_feed (cs : list Chunk) (c : Call) :
  In c (calls ready ++ map AcceptWaveform cs) -> isSettle c = false.
Proof.
  rewrite in_app_iff, in_map_iff. intros [H|(x & <- & _)]; [|reflexivity].
  simpl in H. decompose [or] H; subst; try reflexivity. contradiction.
Qed.

(** C7.  Once the recognizer exists, on each way the stream can end
    (the end of the file with a successful final decode, the end of the
    file with an exception in the final decode, a stream error) the
    session is released exactly once, the release comes before the promise
    is resolved or rejected, the promise is settled, and a decode or stream
    error is the rejection the caller receives. *)
Theorem recognizer_released_once (env : Env) (run : StreamRun) :
  voskLoader env = ModelReady -> newRecognizer env = Ok tt ->
  let st := transcribeWithVosk finalResult env (events run) in
  List.length (filter isFree (calls st)) = 1
  /\ (exists before settling,
        calls st = before ++ [Free; settling]
        /\ isSettle settling = true
        /\ (forall c, In c before -> isSettle c = false /\ isFree c = false))
  /\ settled st <> None
  /\ (forall err, ending run = Failed err -> settled st = Some (Throw err))
  /\ (forall err, ending run = Ended ->
        finalResult (chunks run) = Throw err -> settled st = Some (Throw err))
  /\ (forall result, ending run = Ended ->
        finalResult (chunks run) = Ok result ->
        exists v, settled st = Some (Ok v)).
Proof.
  intros Hl Hr st. unfold st. rewrite (transcribeWithVosk_run env run Hl Hr).
  clear st.
  assert (Hpre : forall c, In c (calls ready ++ map AcceptWaveform (chunks run))
                   -> isSettle c = false /\ isFree c = false).
  { intros c H. split; [eapply no_settle_in_feed; exact H|].
    apply in_app_iff in H. destruct H as [H|H].
    - simpl in H. decompose [or] H; subst; try reflexivity. contradiction.
    - apply in_map_iff in H. destruct H as (x & <- & _). reflexivity. }
  assert (Hshape : forall settling,
             isSettle settling = true ->
             exists before settling',
               (((calls ready ++ map AcceptWaveform (chunks run))
                   ++ [GetFinalResult]) ++ [Free]) ++ [settling]
               = before ++ [Free; settling']
               /\ isSettle settling' = true
               /\ (forall c, In c before ->
                     isSettle c = false /\ isFree c = false)).
  { intros settling Hs.
    exists ((calls ready ++ map AcceptWaveform (chunks run))
              ++ [GetFinalResult]), settling.
    split; [rewrite <- (app_assoc _ [Free]); reflexivity|].
    split; [exact Hs|].
    intros c Hc. apply in_app_iff in Hc.
    destruct Hc as [Hc|[<-|[]]]; [apply Hpre, Hc | split; reflexivity]. }
  assert (Hcount : forall settling,
             isSettle settling = true ->
             List.length
               (filter isFree
                  ((((calls ready ++ map AcceptWaveform (chunks run))
                       ++ [GetFinalResult]) ++ [Free]) ++ [settling])) = 1).
  { intros settling Hs. rewrite !filter_app, no_free_in_feed.
    destruct settling; try discriminate; reflexivity. }
  destruct (ending run) as [|err] eqn:E; cbn [dispatch].
  - unfold onEnd. cbn [fed].
    destruct (finalResult (chunks run)) as [result|err] eqn:F.
    + destruct (truthy (JStr (bestText result)));
        unfold resolve, free, settle, log; cbn [calls fed settled];
        (split; [apply (Hcount (Resolve _)); reflexivity|]);
        (split; [apply (Hshape (Resolve _)); reflexivity|]);
        (split; [discriminate|]);
        (split; [discriminate|]);
        (split; [discriminate|]);
        intros r _ _; eexists; reflexivity.
    + unfold reject, free, settle, log; cbn [calls fed settled].
      split; [apply (Hcount (Reject _)); reflexivity|].
      split; [apply (Hshape (Reject _)); reflexivity|].
      split; [discriminate|].
      split; [discriminate|].
      split; [intros err0 _ H; congruence|].
      discriminate.
  - unfold onError, reject, free, settle, log; cbn [calls fed settled].
    split.
    { rewrite !filter_app, no_free_in_feed. reflexivity. }
    split.
    { exists (calls ready ++ map AcceptWaveform (chunks run)), (Reject err).
      split; [rewrite <- !app_assoc; reflexivity|].
      split; [reflexivity | exact Hpre]. }
    split; [discriminate|].
    split; [intros err0 H; congruence|].
    split; discriminate.
Qed.

(** C8.  When the final decode succeeds, the call resolves: with the
    trimmed text of the best alternative when that text is not empty, and
    with the value [false] when it is empty; [false] is neither a
    rejection nor a text. *)
Theorem offline_text_or_no_speech (env : Env) (run : StreamRun)
  (result : option FinalResult) :
  voskLoader env = ModelReady -> newRecognizer env = Ok tt ->
  ending run = Ended -> finalResult (chunks run) = Ok result ->
  let st := transcribeWithVosk finalResult env (events run) in
  (bestText result <> [] -> settled st = Some (Ok (JStr (bestText result))))
  /\ (bestText result = [] -> settled st = Some (Ok (JBool false)))
  /\ (forall t alts,
        result = Some (mkFinalResult (Some (mkAlternative (Some t) :: alts))) ->
        bestText result = trim t)
  /\ (forall e, Ok (JBool false) <> Throw e)
  /\ (forall t, JBool false <> JStr t).
Proof.
  intros Hl Hr He Hf st. unfold st.
  rewrite (transcribeWithVosk_run env run Hl Hr), He. cbn [dispatch].
  unfold onEnd. cbn [fed]. rewrite Hf.
  split; [|split; [|split; [|split]]].
  - intros H. destruct (bestText result) eqn:B; [contradiction|]. reflexivity.
  - intros ->. reflexivity.
  - intros t alts ->. reflexivity.
  - discriminate.
  - discriminate.
Qed.

End OfflineRecognizer.

Section OfflineRecognizerWitnesses.

Lemma recognizer_released_once_witness :
  let st := transcribeWithVosk decodeFails warmEnv (events twoChunks) in
  List.length (filter isFree (calls st)) = 1
  /\ settled st = Some (Throw (External (js "decode"))).
Proof.
  destruct (@recognizer_released_once decodeFails warmEnv twoChunks
              eq_refl eq_refl) as (H1 & _ & _ & _ & H5 & _).
  split; [exact H1|]. apply H5; reflexivity.
Defined.

Lemma offline_text_or_no_speech_witness :
  settled (transcribeWithVosk decodeHello warmEnv (events twoChunks))
  = Some (Ok (JStr (js "hello")))
  /\ settled (transcribeWithVosk decodeSilence warmEnv (events twoChunks))
     = Some (Ok (JBool false)).
Proof.
  split.
  - apply (@offline_text_or_no_speech decodeHello warmEnv twoChunks _
             eq_refl eq_refl eq_refl eq_refl).
    discriminate.
  - apply (@offline_text_or_no_speech decodeSilence warmEnv twoChunks _
             eq_refl eq_refl eq_refl eq_refl).
    reflexivity.
Defined.

End OfflineRecognizerWitnesses.

(** ** The fallback chain *)

Section FallbackChain.

Variable S : Type.
Variable whisperPrimary : jsstring -> JsValue -> M S JsValue.
Variable whisperBatch : jsstring -> JsValue -> M S JsValue.
Variable vosk : jsstring -> M S JsValue.

(** C1.  The chain tries Primary, then Remote Batch, then Offline: when
    Primary returns, its value is returned and no other backend is
    invoked; when Primary throws and Remote Batch returns, that value is
    returned and Offline is not invoked; when both throw, the outcome is
    Offline's; and an error reaches the caller only when all three were
    invoked in that order and it is the error Offline threw. *)
Theorem fallback_in_order (filePath : jsstring) (options : JsValue) (s : S)
  (invoked : list Backend) :
  let outcome :=
    transcribeWithWhisperWithFallback whisperPrimary whisperBatch vosk
      filePath options (s, invoked) in
  (forall v s1,
      whisperPrimary filePath options s = (Ok v, s1) ->
      outcome = (Ok v, (s1, invoked ++ [Primary])))
  /\ (forall e1 s1 v s2,
        whisperPrimary filePath options s = (Throw e1, s1) ->
        whisperBatch filePath options s1 = (Ok v, s2) ->
        outcome = (Ok v, (s2, invoked ++ [Primary; RemoteBatch])))
  /\ (forall e1 s1 e2 s2 r s3,
        whisperPrimary filePath options s = (Throw e1, s1) ->
        whisperBatch filePath options s1 = (Throw e2, s2) ->
        vosk filePath s2 = (r, s3) ->
        outcome = (r, (s3, invoked ++ [Primary; RemoteBatch; Offline])))
  /\ (forall e w,
        outcome = (Throw e, w) ->
        exists e1 s1 e2 s2,
          whisperPrimary filePath options s = (Throw e1, s1)
          /\ whisperBatch filePath options s1 = (Throw e2, s2)
          /\ vosk filePath s2 = (Throw e, fst w)
          /\ snd w = invoked ++ [Primary; RemoteBatch; Offline]).
Proof.
  unfold transcribeWithWhisperWithFallback, try_catch, invoke.
  cbn [fst snd].
  split; [|split; [|split]].
  - intros v s1 H1. rewrite H1. reflexivity.
  - intros e1 s1 v s2 H1 H2. rewrite H1. cbn [fst snd]. rewrite H2.
    rewrite <- app_assoc. reflexivity.
  - intros e1 s1 e2 s2 r s3 H1 H2 H3. rewrite H1. cbn [fst snd]. rewrite H2.
    cbn [fst snd]. rewrite H3. rewrite <- !app_assoc.
    destruct r; reflexivity.
  - intros e w.
    destruct (whisperPrimary filePath options s) as [[v|e1] s1] eqn:H1;
      [discriminate|].
    cbn [fst snd].
    destruct (whisperBatch filePath options s1) as [[v|e2] s2] eqn:H2;
      [discriminate|].
    cbn [fst snd].
    destruct (vosk filePath s2) as [r s3] eqn:H3.
    intros H. injection H as -> <-.
    exists e1, s1, e2, s2. cbn [fst snd]. rewrite <- !app_assoc.
    repeat split; assumption || reflexivity.
Qed.

End FallbackChain.

Section FallbackChainWitness.

Lemma fallback_in_order_witness :
  transcribeWithWhisperWithFallback
    (fun _ _ => throwing "primary") (fun _ _ => throwing "batch")
    (fun _ => returning (JStr (js "hello")))
    (js "a.wav") (JObj []) (0, [])
  = (Ok (JStr (js "hello")), (3, [Primary; RemoteBatch; Offline]))
  /\ transcribeWithWhisperWithFallback
       (fun _ _ => returning (JStr (js "ok"))) (fun _ _ => throwing "batch")
       (fun _ => throwing "offline")
       (js "a.wav") (JObj []) (0, [])
     = (Ok (JStr (js "ok")), (1, [Primary])).
Proof.
  split.
  - eapply (proj1 (proj2 (proj2
      (@fallback_in_order nat (fun _ _ => throwing "primary")
         (fun _ _ => throwing "batch")
         (fun _ => returning (JStr (js "hello")))
         (js "a.wav") (JObj []) 0 [])))); reflexivity.
  - eapply (proj1
      (@fallback_in_order nat (fun _ _ => returning (JStr (js "ok")))
         (fun _ _ => throwing "batch") (fun _ => throwing "offline")
         (js "a.wav") (JObj []) 0 [])); reflexivity.
Defined.

End FallbackChainWitness.

(** ** The remote batch client: call and event poll *)

Section EventPoll.

Variable net : Network.
Variable JSON_parse : jsstring -> option JsValue.

Lemma dataLines_app (raws1 raws2 : list jsstring) :
  filter isData (filter nonEmpty (map trim (raws1 ++ raws2)))
  = filter isData (filter nonEmpty (map trim raws1))
      ++ filter isData (filter nonEmpty (map trim raws2)).
Proof. rewrite map_app, !filter_app. reflexivity. Qed.

Lemma dataLines_none (raws : list jsstring) :
  (forall raw, In raw raws -> isData (trim raw) = false) ->
  filter isData (filter nonEmpty (map trim raws)) = [].
Proof.
  induction raws as [|r raws IH]; intros H; simpl; [reflexivity|].
  destruct (nonEmpty (trim r)); simpl.
  - rewrite (H r) by (left; reflexivity). apply IH.
    intros raw Hin. apply H. right. exact Hin.
  - apply IH. intros raw Hin. apply H. right. exact Hin.
Qed.

Lemma isData_nonEmpty (line : jsstring) : isData line = true -> nonEmpty line = true.
Proof. destruct line; [discriminate | reflexivity]. Qed.

Lemma dataLines_eq (body : jsstring) :
  dataLines body = filter isData (filter nonEmpty (map trim (split LF body))).
Proof. reflexivity. Qed.

Lemma dataLines_last (body : jsstring) (before after : list jsstring)
  (line : jsstring) :
  split LF body = before ++ line :: after ->
  isData (trim line) = true ->
  (forall raw, In raw after -> isData (trim raw) = false) ->
  dataLines body
  = filter isData (filter nonEmpty (map trim before)) ++ [trim line].
Proof.
  intros Hs Hd Ha. unfold dataLines. fold isData. fold nonEmpty.
  rewrite Hs, dataLines_app. f_equal.
  change (line :: after) with ([line] ++ after).
  rewrite dataLines_app, (dataLines_none after Ha), app_nil_r.
  simpl. rewrite (isData_nonEmpty _ Hd). simpl. rewrite Hd. reflexivity.
Qed.

Lemma eventPayload_of_last (body : jsstring) (lines : list jsstring)
  (line : jsstring) :
  dataLines body = lines ++ [line] ->
  eventPayload JSON_parse body
  = Ok (parsedOrRaw JSON_parse (trim (slice 5 line))).
Proof.
  intros H. unfold eventPayload. rewrite H.
  destruct (lines ++ [line]) as [|x l] eqn:E.
  - destruct lines; discriminate.
  - rewrite <- E, last_last. unfold parsedOrRaw.
    change (List.length (js "data:")) with 5.
    destruct (JSON_parse (trim (slice 5 line))); reflexivity.
Qed.

(** The call step up to the event identifier. *)
Lemma callGradio_event_id (apiUrl apiName : JsValue) (dataArray : list JsValue)
  (log : Log) (response : Response) (result eventId : JsValue) :
  net log (callRequest apiUrl apiName dataArray) = Ok response ->
  ok response = true ->
  JSON_parse (text response) = Some result ->
  selectEventId result = Ok eventId ->
  callGradio net JSON_parse apiUrl apiName dataArray log
  = if truthy eventId
    then
      let log1 := log ++ [callRequest apiUrl apiName dataArray] in
      let get := eventRequest apiUrl apiName eventId in
      match net log1 get with
      | Ok eventResponse =>
          if ok eventResponse
          then (eventPayload JSON_parse (text eventResponse), log1 ++ [get])
          else (Throw (failure (js "Gradio event failed") eventResponse),
                log1 ++ [get])
      | Throw e => (Throw e, log1 ++ [get])
      end
    else (Throw (Error (js "Gradio call returned no event id.")),
          log ++ [callRequest apiUrl apiName dataArray]).
Proof.
  intros Hn Hok Hp Hs.
  unfold callGradio, bind, fetch, json, lift, throw, ret.
  fold (callRequest apiUrl apiName dataArray). rewrite Hn, Hok. cbn [negb].
  rewrite Hp, Hs.
  destruct (truthy eventId); cbn [negb]; [|reflexivity].
  fold (eventRequest apiUrl apiName eventId). cbv zeta.
  destruct (net _ (eventRequest apiUrl apiName eventId)) as [er|e];
    [|reflexivity].
  destruct (ok er); reflexivity.
Qed.

End EventPoll.

Section EventPollClaims.

Variable net : Network.
Variable JSON_parse : jsstring -> option JsValue.

(** C4.  In the event poll, only (trimmed) lines that begin with [data:]
    are kept; a body without such a line fails with the no-data error; the
    payload is the last such line with the prefix stripped and trimmed,
    parsed as JSON when that succeeds and kept as a string otherwise; the
    two-line scenario yields the parse of its second line; and this is the
    result of [callGradio] whenever the base URL, the API name and the
    event identifier can be printed into the request URLs and both
    requests are answered with an OK status. *)
Theorem event_poll_last_data_line :
  (forall body line,
      In line (dataLines body) ->
      isData line = true /\ exists raw, In raw (split LF body) /\ line = trim raw)
  /\ (forall body,
        (forall raw, In raw (split LF body) -> isData (trim raw) = false) ->
        eventPayload JSON_parse body
        = Throw (Error (js "Gradio event returned no data.")))
  /\ (forall body before line after,
        split LF body = before ++ line :: after ->
        isData (trim line) = true ->
        (forall raw, In raw after -> isData (trim raw) = false) ->
        eventPayload JSON_parse body
        = Ok (parsedOrRaw JSON_parse (trim (slice 5 (trim line)))))
  /\ eventPayload JSON_parse twoEvents = Ok (parsedOrRaw JSON_parse finalEvent)
  /\ (forall apiUrl apiName dataArray log response result eventId eventResponse,
        printable apiUrl = true -> printable apiName = true ->
        printable eventId = true ->
        net log (callRequest apiUrl apiName dataArray) = Ok response ->
        ok response = true ->
        JSON_parse (text response) = Some result ->
        selectEventId result = Ok eventId ->
        truthy eventId = true ->
        net (log ++ [callRequest apiUrl apiName dataArray])
          (eventRequest apiUrl apiName eventId) = Ok eventResponse ->
        ok eventResponse = true ->
        callGradio net JSON_parse apiUrl apiName dataArray log
        = (eventPayload JSON_parse (text eventResponse),
           (log ++ [callRequest apiUrl apiName dataArray])
             ++ [eventRequest apiUrl apiName eventId])).
Proof.
  split; [|split; [|split; [|split]]].
  - intros body line H. unfold dataLines in H.
    apply filter_In in H. destruct H as [H Hd].
    apply filter_In in H. destruct H as [H _].
    apply in_map_iff in H. destruct H as (raw & <- & Hin).
    split; [exact Hd|]. exists raw. auto.
  - intros body H. unfold eventPayload.
    rewrite dataLines_eq, (dataLines_none _ H). reflexivity.
  - intros body before line after Hs Hd Ha.
    eapply eventPayload_of_last. eapply dataLines_last; eassumption.
  - change finalEvent
      with (trim (slice 5 (js "data: [2,[" ++ quoted "final" ++ js "]]"))).
    apply eventPayload_of_last
      with (lines := [js "data: [1,[" ++ quoted "hi" ++ js "]]"]).
    reflexivity.
  - intros apiUrl apiName dataArray log response result eventId eventResponse
      _ _ _ Hn Hok Hp Hs Ht Hn2 Hok2.
    erewrite callGradio_event_id by eassumption. rewrite Ht.
    cbv zeta. rewrite Hn2, Hok2. reflexivity.
Qed.

Lemma lookup_cons (k k' : jsstring) (v : JsValue)
  (props : list (jsstring * JsValue)) :
  lookup k ((k', v) :: props)
  = match lookup k props with
    | Some x => Some x
    | None => if eqs k k' then Some v else None
    end.
Proof. reflexivity. Qed.

Lemma prop_absent_or_falsy (props : list (jsstring * JsValue)) (k k' : string)
  (v : JsValue) :
  lookup (js k) props = None -> truthy v = false ->
  (prop (JObj ((js k, v) :: props)) k' = prop (JObj props) k')
  \/ (truthy (prop (JObj ((js k, v) :: props)) k') = false
      /\ truthy (prop (JObj props) k') = false).
Proof.
  intros Habs Hf. unfold prop. rewrite lookup_cons.
  destruct (lookup (js k') props) as [x|] eqn:L; [left; reflexivity|].
  destruct (eqs (js k') (js k)); [right; split; [exact Hf | reflexivity]|].
  left. reflexivity.
Qed.

(** C9.  The event identifier is the first truthy one of the response
    fields [event_id], [eventId], [id] (the last one when none is truthy);
    when it is falsy the client throws the missing-event-id error and the
    only request it has issued is the call [POST], no event-poll [GET];
    and a field that is present with a falsy value selects the same
    identifier, up to falsy values, as the same response without it. *)
Theorem missing_event_id_stops_before_poll :
  (forall result,
      result <> JNull -> result <> JUndefined ->
      selectEventId result
      = Ok (or_else (or_else (prop result "event_id") (prop result "eventId"))
              (prop result "id")))
  /\ (forall result eventId,
        selectEventId result = Ok eventId ->
        (truthy eventId = false <->
         truthy (prop result "event_id") = false
         /\ truthy (prop result "eventId") = false
         /\ truthy (prop result "id") = false))
  /\ (forall apiUrl apiName dataArray log response result eventId,
        net log (callRequest apiUrl apiName dataArray) = Ok response ->
        ok response = true ->
        JSON_parse (text response) = Some result ->
        selectEventId result = Ok eventId ->
        truthy eventId = false ->
        callGradio net JSON_parse apiUrl apiName dataArray log
        = (Throw (Error (js "Gradio call returned no event id.")),
           log ++ [callRequest apiUrl apiName dataArray])
        /\ method (callRequest apiUrl apiName dataArray) = POST)
  /\ (forall props k v,
        In k eventIdKeys -> lookup (js k) props = None -> truthy v = false ->
        exists e1 e2,
          selectEventId (JObj props) = Ok e1
          /\ selectEventId (JObj ((js k, v) :: props)) = Ok e2
          /\ truthy e1 = truthy e2
          /\ (truthy e1 = true -> e1 = e2)).
Proof.
  assert (Hsel : forall result,
             result <> JNull -> result <> JUndefined ->
             selectEventId result
             = Ok (or_else (or_else (prop result "event_id")
                              (prop result "eventId")) (prop result "id"))).
  { intros result H1 H2. unfold selectEventId, or_else.
    assert (G : getProp result "event_id" = Ok (prop result "event_id"))
      by (destruct result; try reflexivity; contradiction).
    rewrite G.
    destruct (truthy (prop result "event_id")) eqn:A; cbv iota.
    - rewrite A. reflexivity.
    - destruct (truthy (prop result "eventId")) eqn:B; cbv iota;
        rewrite ?B; reflexivity. }
  split; [exact Hsel|]. split; [|split].
  - intros result eventId H.
    assert (H1 : result <> JNull) by (intros ->; discriminate).
    assert (H2 : result <> JUndefined) by (intros ->; discriminate).
    rewrite (Hsel result H1 H2) in H. injection H as <-. unfold or_else.
    destruct (truthy (prop result "event_id")) eqn:A.
    + cbv iota. rewrite !A. cbv iota. rewrite ?A.
      split; [intros X; discriminate X | intros [X _]; discriminate X].
    + cbv iota. destruct (truthy (prop result "eventId")) eqn:B.
      * cbv iota. rewrite ?B.
        split; [intros X; discriminate X | intros (_ & X & _); discriminate X].
      * cbv iota. tauto.
  - intros apiUrl apiName dataArray log response result eventId
      Hn Hok Hp Hs Ht.
    erewrite callGradio_event_id by eassumption. rewrite Ht.
    split; reflexivity.
  - intros props k v Hk Habs Hf.
    rewrite !Hsel by discriminate. eexists _, _.
    split; [reflexivity|]. split; [reflexivity|].
    destruct (@prop_absent_or_falsy props k "event_id" v Habs Hf) as [A|[A1 A2]];
    destruct (@prop_absent_or_falsy props k "eventId" v Habs Hf) as [B|[B1 B2]];
    destruct (@prop_absent_or_falsy props k "id" v Habs Hf) as [C|[C1 C2]];
    unfold or_else;
    repeat match goal with
           | H : prop _ _ = prop _ _ |- _ => rewrite H
           | H : truthy _ = false |- _ => rewrite H
           end;
    repeat match goal with
           | |- context [if truthy ?x then _ else _] =>
               destruct (truthy x) eqn:?
           end;
    split; congruence.
Qed.

End EventPollClaims.

(** ** A scripted exchange with the batch service *)

Section ScriptedExchange.

Lemma event_poll_last_data_line_witness :
  eventPayload scriptedParse twoEvents
  = Ok (JArr [JNum 2; JArr [JStr (js "final")]])
  /\ callGradio (scriptedNet [callReply; twoEvents]) scriptedParse
       service transcribeFile [] []
     = (Ok (JArr [JNum 2; JArr [JStr (js "final")]]),
        [callRequest service transcribeFile [];
         eventRequest service transcribeFile (JStr (js "e1"))]).
Proof.
  destruct (event_poll_last_data_line
              (scriptedNet [callReply; twoEvents]) scriptedParse)
    as (_ & _ & Hlast & _ & Hcall).
  split.
  - refine (eq_trans
              (Hlast twoEvents [js "data: [1,[" ++ quoted "hi" ++ js "]]"]
                 (js "data: [2,[" ++ quoted "final" ++ js "]]") [[]]
                 eq_refl eq_refl _) eq_refl).
    intros raw [<-|[]]. reflexivity.
  - refine (eq_trans
              (Hcall service transcribeFile [] []
                 (mkResponse true 200 (js "OK") callReply)
                 (JObj [(js "event_id", JStr (js "e1"))]) (JStr (js "e1"))
                 (mkResponse true 200 (js "OK") twoEvents)
                 eq_refl eq_refl eq_refl
                 eq_refl eq_refl eq_refl eq_refl eq_refl eq_refl eq_refl)
              eq_refl).
Defined.

Lemma missing_event_id_stops_before_poll_witness :
  callGradio (scriptedNet [emptyIdReply; twoEvents]) scriptedParse
    service transcribeFile [] []
  = (Throw (Error (js "Gradio call returned no event id.")),
     [callRequest service transcribeFile []]).
Proof.
  destruct (missing_event_id_stops_before_poll
              (scriptedNet [emptyIdReply; twoEvents]) scriptedParse)
    as (_ & _ & Hstop & _).
  exact (proj1 (Hstop service transcribeFile [] []
                  (mkResponse true 200 (js "OK") emptyIdReply)
                  (JObj [(js "event_id", JStr [])]) JUndefined
                  eq_refl eq_refl eq_refl eq_refl eq_refl)).
Defined.

End ScriptedExchange.

(** ** The remote batch client: upload *)

Section PathFacts.

Lemma takeWhile_all (p : ascii -> bool) (s : jsstring) :
  (forall c, In c s -> p c = true) -> takeWhile p s = s.
Proof.
  induction s as [|c s IH]; intros H; simpl; [reflexivity|].
  rewrite (H c) by (left; reflexivity). f_equal. apply IH.
  intros d Hd. apply H. right. exact Hd.
Qed.

Lemma takeWhile_sat (p : ascii -> bool) (s : jsstring) (c : ascii) :
  In c (takeWhile p s) -> p c = true.
Proof.
  induction s as [|d s IH]; simpl; [tauto|].
  destruct (p d) eqn:E; simpl; [|tauto].
  intros [<-|H]; [exact E | apply IH, H].
Qed.

Lemma dropWhile_none (p : ascii -> bool) (s : jsstring) :
  (forall c, In c s -> p c = false) -> dropWhile p s = s.
Proof.
  destruct s as [|c s]; intros H; simpl; [reflexivity|].
  rewrite (H c) by (left; reflexivity). reflexivity.
Qed.

Lemma basename_no_slash (p : jsstring) : ~ In SLASH (basename p).
Proof.
  unfold basename. rewrite <- in_rev. intros H.
  apply takeWhile_sat in H. rewrite eqc_refl in H. discriminate.
Qed.

Lemma basename_fixed (b : jsstring) : ~ In SLASH b -> basename b = b.
Proof.
  intros H. unfold basename.
  assert (Hr : forall c, In c (rev b) -> eqc SLASH c = false).
  { intros c Hc. apply in_rev in Hc. destruct (eqc SLASH c) eqn:E; [|reflexivity].
    apply eqc_true in E. subst c. contradiction. }
  rewrite (dropWhile_none _ _ Hr), takeWhile_all, rev_involutive; [reflexivity|].
  intros c Hc. apply in_rev in Hc. destruct (eqc c SLASH) eqn:E; [|reflexivity].
  apply eqc_true in E. subst c. contradiction.
Qed.

Lemma extname_wav (b : jsstring) :
  b <> [] -> ~ In SLASH b -> extname (b ++ js ".wav") = js ".wav".
Proof.
  intros Hne Hs. unfold extname. rewrite basename_fixed.
  - rewrite rev_app_distr.
    change (rev (js ".wav")) with (js "vaw" ++ [DOT]).
    rewrite <- app_assoc.
    change (takeWhile (fun c => negb (eqc c DOT)) (js "vaw" ++ [DOT] ++ rev b))
      with (js "vaw").
    change (dropWhile (fun c => negb (eqc c DOT)) (js "vaw" ++ [DOT] ++ rev b))
      with (DOT :: rev b).
    destruct (rev b) as [|c r] eqn:E.
    + apply (f_equal (@rev ascii)) in E. rewrite rev_involutive in E.
      contradiction.
    + destruct r; [rewrite andb_false_r|]; reflexivity.
  - rewrite in_app_iff. intros [H|H]; [contradiction|].
    simpl in H. decompose [or] H; discriminate || assumption.
Qed.

Lemma toLowerCase_nil (s : jsstring) : toLowerCase s = [] <-> s = [].
Proof. destruct s; simpl; split; intros H; reflexivity || discriminate. Qed.

End PathFacts.

Section Upload.

Variable net : Network.
Variable JSON_parse : jsstring -> option JsValue.
Variable fs : FileSystem.
Variable path_resolve : jsstring -> jsstring.

Lemma uploadToGradio_log (apiUrl : JsValue) (filePath : jsstring) (log : Log) :
  snd (uploadToGradio net JSON_parse fs path_resolve apiUrl filePath log)
  = match fs (path_resolve filePath) with
    | Some (File data) =>
        log ++ [uploadRequest apiUrl
                  (uploadName (basename (path_resolve filePath))) data]
    | _ => log
    end.
Proof.
  unfold uploadToGradio, bind, readFile, lift, readFileSync, fetch, json,
    throw, ret.
  destruct (fs (path_resolve filePath)) as [[data| |]|]; try reflexivity.
  fold (uploadRequest apiUrl (uploadName (basename (path_resolve filePath)))
          data).
  destruct (net log _) as [response|e]; [|reflexivity].
  destruct (ok response); cbn [negb]; [|reflexivity].
  destruct (JSON_parse (text response)) as [result|]; [|reflexivity].
  destruct result; try reflexivity.
  destruct (truthy (first items)); reflexivity.
Qed.

Lemma getMimeType_table (name : jsstring) (ext mime : string) :
  In (ext, mime) mimeTypes -> toLowerCase (extname name) = js ext ->
  getMimeType name = js mime.
Proof.
  intros H E. unfold getMimeType. rewrite E. simpl in H.
  decompose [or] H; try contradiction;
    match goal with X : (_, _) = (_, _) |- _ => injection X as <- <- end;
    reflexivity.
Qed.

Lemma getMimeType_default (name : jsstring) :
  (forall ext mime, In (ext, mime) mimeTypes ->
                    toLowerCase (extname name) <> js ext) ->
  getMimeType name = js "application/octet-stream".
Proof.
  intros H. unfold getMimeType.
  repeat match goal with
         | |- context [eqs ?a (js ?e)] =>
             let E := fresh in
             destruct (eqs a (js e)) eqn:E;
             [apply eqs_true in E; exfalso;
              refine (H e _ _ E); simpl; tauto|]
         end.
  reflexivity.
Qed.

(** C10.  The upload sends the file under its base name when the base name
    has an extension, with the MIME type of that extension, and under the
    base name followed by [.wav] when it has none, with MIME type
    [audio/wav]. *)
Theorem upload_file_name (apiUrl : JsValue) (filePath : jsstring) (log : Log)
  (data : jsstring) :
  fs (path_resolve filePath) = Some (File data) ->
  let base := basename (path_resolve filePath) in
  let name := uploadName base in
  snd (uploadToGradio net JSON_parse fs path_resolve apiUrl filePath log)
  = log ++ [mkRequest POST (normalizeBaseUrl apiUrl ++ js "/gradio_api/upload")
              (FormBody (js "files") name (getMimeType name) data)]
  /\ (extname base = [] ->
      name = base ++ js ".wav"
      /\ (base <> [] -> getMimeType name = js "audio/wav"))
  /\ (extname base <> [] ->
      name = base
      /\ (forall ext mime,
             In (ext, mime) mimeTypes -> toLowerCase (extname base) = js ext ->
             getMimeType name = js mime)
      /\ ((forall ext mime,
              In (ext, mime) mimeTypes -> toLowerCase (extname base) <> js ext) ->
          getMimeType name = js "application/octet-stream")).
Proof.
  intros Hfile base name. split; [|split].
  - rewrite uploadToGradio_log, Hfile. reflexivity.
  - intros He. assert (Hn : name = base ++ js ".wav").
    { unfold name, uploadName. rewrite He. reflexivity. }
    split; [exact Hn|]. intros Hne. rewrite Hn. unfold getMimeType.
    rewrite extname_wav; [reflexivity | exact Hne | apply basename_no_slash].
  - intros He. assert (Hn : name = base).
    { unfold name, uploadName.
      destruct (toLowerCase (extname base)) eqn:E; [|reflexivity].
      apply (proj1 (toLowerCase_nil _)) in E. exact (False_ind _ (He E)). }
    rewrite Hn. split; [reflexivity|]. split.
    + intros ext mime. apply getMimeType_table.
    + apply getMimeType_default.
Qed.

End Upload.

Section UploadWitness.

Lemma upload_file_name_witness :
  snd (uploadToGradio (scriptedNet [uploadReply]) scriptedParse recordings
         absolute service (js "/srv/audio/clip") [])
  = [mkRequest POST (js "http://whisper.local/gradio_api/upload")
       (FormBody (js "files") (js "clip.wav") (js "audio/wav") (js "RIFF"))]
  /\ getMimeType (uploadName (basename (js "/srv/audio/Talk.MP3")))
     = js "audio/mpeg".
Proof.
  split.
  - exact (proj1 (@upload_file_name (scriptedNet [uploadReply]) scriptedParse
                    recordings absolute service (js "/srv/audio/clip") []
                    (js "RIFF") eq_refl)).
  - refine (proj1 (proj2 (proj2 (proj2
              (@upload_file_name (scriptedNet [uploadReply]) scriptedParse
                 recordings absolute service (js "/srv/audio/Talk.MP3") []
                 (js "ID3") eq_refl)) _)) ".mp3"%string "audio/mpeg"%string _ eq_refl).
    + vm_compute. discriminate.
    + simpl. tauto.
Defined.

End UploadWitness.

(** ** The remote batch client: the parameter vector of the call *)

Section ParameterVector.

Variable net : Network.
Variable JSON_parse : jsstring -> option JsValue.
Variable fs : FileSystem.
Variable path_resolve : jsstring -> jsstring.
Variable config : JsValue.

Lemma callGradio_log (apiUrl apiName : JsValue) (dataArray : list JsValue)
  (log : Log) :
  exists tail,
    snd (callGradio net JSON_parse apiUrl apiName dataArray log)
    = log ++ callRequest apiUrl apiName dataArray :: tail
    /\ Forall noJsonBody tail.
Proof.
  unfold callGradio, bind, fetch, json, lift, throw, ret.
  fold (callRequest apiUrl apiName dataArray).
  destruct (net log _) as [response|e]; [|exists []; split; [reflexivity|constructor]].
  destruct (ok response); cbn [negb];
    [|exists []; split; [reflexivity|constructor]].
  destruct (JSON_parse (text response)) as [result|];
    [|exists []; split; [reflexivity|constructor]].
  destruct (selectEventId result) as [eventId|e];
    [|exists []; split; [reflexivity|constructor]].
  destruct (truthy eventId); cbn [negb];
    [|exists []; split; [reflexivity|constructor]].
  exists [eventRequest apiUrl apiName eventId].
  split.
  - fold (eventRequest apiUrl apiName eventId).
    destruct (net _ (eventRequest apiUrl apiName eventId)) as [er|e];
      [destruct (ok er)|]; cbn [negb snd]; rewrite <- app_assoc; reflexivity.
  - constructor; [|constructor]. intros v. discriminate.
Qed.

Lemma extractWhisperTextFromResult_log (result : JsValue) (log : Log) :
  exists tail,
    snd (extractWhisperTextFromResult net fs result log) = log ++ tail
    /\ Forall noJsonBody tail.
Proof.
  unfold extractWhisperTextFromResult.
  destruct (subtitleUrl result) as [u|].
  - exists [mkRequest GET (toString u) NoBody]. split.
    + unfold bind, fetch, throw, ret.
      destruct (net log _) as [response|e]; [destruct (ok response)|];
        reflexivity.
    + constructor; [|constructor]. intros v. discriminate.
  - exists []. split; [|constructor]. unfold bind, lift, ret.
    destruct (extractWhisperText fs result); rewrite app_nil_r; reflexivity.
Qed.

Lemma uploadToGradio_tail (apiUrl : JsValue) (filePath : jsstring) (log : Log) :
  exists tail,
    snd (uploadToGradio net JSON_parse fs path_resolve apiUrl filePath log)
    = log ++ tail
    /\ Forall noJsonBody tail.
Proof.
  rewrite uploadToGradio_log.
  destruct (fs (path_resolve filePath)) as [[data| |]|];
    try (exists []; split; [rewrite app_nil_r; reflexivity | constructor]).
  eexists [_]. split; [reflexivity|].
  constructor; [|constructor]. intros v. discriminate.
Qed.

Lemma requestData_length (uploadPath : JsValue) (modelName device : jsstring)
  (options : JsValue) :
  List.length (requestData uploadPath modelName device options) = 54.
Proof. reflexivity. Qed.

Lemma requestData_device (uploadPath : JsValue) (modelName device : jsstring)
  (options : JsValue) :
  nth 45 (requestData uploadPath modelName device options) JUndefined
  = JStr device
  /\ nth 50 (requestData uploadPath modelName device options) JUndefined
     = JStr device.
Proof. split; reflexivity. Qed.

Lemma requestData_other (uploadPath : JsValue) (modelName d1 d2 : jsstring)
  (options : JsValue) (i : nat) :
  i <> 45 -> i <> 50 ->
  nth i (requestData uploadPath modelName d1 options) JUndefined
  = nth i (requestData uploadPath modelName d2 options) JUndefined.
Proof.
  intros H45 H50.
  do 54 (destruct i as [|i]; [reflexivity || contradiction|]).
  reflexivity.
Qed.

Lemma normalizeGradioDevice_range (device : JsValue) :
  normalizeGradioDevice device = js "cpu"
  \/ normalizeGradioDevice device = js "cuda".
Proof.
  unfold normalizeGradioDevice.
  destruct (eqs _ (js "gpu") || eqs _ (js "cuda")); auto.
Qed.

Lemma transcribeWithWhisper_log (filePath : jsstring) (options : JsValue)
  (log : Log) :
  exists added,
    snd (transcribeWithWhisper net JSON_parse fs path_resolve config
           filePath options log) = log ++ added
    /\ forall req dataArray,
         In req added -> sentData req = Some dataArray ->
         exists uploadPath modelName,
           dataArray
           = requestData uploadPath modelName (selectedDevice config options)
               options.
Proof.
  unfold transcribeWithWhisper.
  destruct (truthy (prop config "whisperApiUrl")); cbn [negb].
  2:{ exists []. split; [rewrite app_nil_r; reflexivity | intros ? ? []]. }
  set (apiUrl := prop config "whisperApiUrl").
  set (modelName := normalizeWhisperModel _).
  set (apiName := or_else _ (Gradio.str "/transcribe_file")).
  unfold bind at 1.
  destruct (uploadToGradio_tail apiUrl filePath log) as (t1 & E1 & F1).
  destruct (uploadToGradio net JSON_parse fs path_resolve apiUrl filePath log)
    as [[uploadPath|e] log1]; cbn [snd] in E1; subst log1.
  2:{ exists t1. split; [reflexivity|].
      intros req dataArray Hin Hs. rewrite Forall_forall in F1.
      specialize (F1 req Hin). unfold sentData in Hs, F1.
      unfold noJsonBody in F1. destruct (body req); try discriminate.
      exfalso. exact (F1 v eq_refl). }
  set (data := requestData uploadPath modelName
                 (selectedDevice config options) options).
  unfold bind.
  destruct (callGradio_log apiUrl apiName data (log ++ t1)) as (t2 & E2 & F2).
  assert (Hdone : forall t3, Forall noJsonBody t3 ->
            forall req dataArray,
              In req (t1 ++ callRequest apiUrl apiName data :: t2 ++ t3) ->
              sentData req = Some dataArray ->
              exists uploadPath0 modelName0,
                dataArray
                = requestData uploadPath0 modelName0
                    (selectedDevice config options) options).
  { intros t3 F3 req dataArray Hin Hs.
    assert (Hno : forall t, Forall noJsonBody t -> In req t -> False).
    { intros t Ft Ht. rewrite Forall_forall in Ft. specialize (Ft req Ht).
      unfold sentData in Hs. unfold noJsonBody in Ft.
      destruct (body req); try discriminate. exact (Ft v eq_refl). }
    apply in_app_iff in Hin. destruct Hin as [Hin|[<-|Hin]].
    - exfalso. exact (Hno t1 F1 Hin).
    - exists uploadPath, modelName.
      change (Some data = Some dataArray) in Hs.
      injection Hs as <-. reflexivity.
    - apply in_app_iff in Hin. exfalso.
      destruct Hin as [Hin|Hin]; [exact (Hno t2 F2 Hin) | exact (Hno t3 F3 Hin)]. }
  destruct (callGradio net JSON_parse apiUrl apiName data (log ++ t1))
    as [[result|e] log2]; cbn [snd] in E2; subst log2.
  2:{ exists (t1 ++ callRequest apiUrl apiName data :: t2 ++ []). split.
      - rewrite app_nil_r, <- app_assoc. reflexivity.
      - apply Hdone. constructor. }
  destruct (extractWhisperTextFromResult_log result
              ((log ++ t1) ++ callRequest apiUrl apiName data :: t2))
    as (t3 & E3 & F3).
  exists (t1 ++ callRequest apiUrl apiName data :: t2 ++ t3). split.
  - rewrite E3, <- !app_assoc. reflexivity.
  - apply Hdone, F3.
Qed.

End ParameterVector.

Section ParameterVectorClaims.

(** C2 (as stated, refuted).  The data array of the call has 54 elements,
    not 53: the file reference followed by 53 parameters. *)
Lemma call_data_vector_not_53 :
  option_map (@List.length JsValue)
    (match nth_error scriptedRun 1 with
     | Some req => sentData req
     | None => None
     end) = Some 54
  /\ option_map (@List.length JsValue)
       (match nth_error scriptedRun 1 with
        | Some req => sentData req
        | None => None
        end) <> Some 53.
Proof. split; [reflexivity|]. vm_compute. discriminate. Qed.

(** C2 (amended).  Every JSON body [transcribeWithWhisper] sends carries a
    data array of exactly 54 elements at fixed positions, whose elements 45
    and 50 (counting from 0) both hold the normalized device string,
    ["cpu"] or ["cuda"]; and no other position depends on the device. *)
Theorem call_data_vector :
  (forall net JSON_parse fs path_resolve config filePath options log,
    exists added,
      snd (transcribeWithWhisper net JSON_parse fs path_resolve config
             filePath options log) = log ++ added
      /\ forall req dataArray,
           In req added -> sentData req = Some dataArray ->
           List.length dataArray = 54
           /\ nth 45 dataArray JUndefined = JStr (selectedDevice config options)
           /\ nth 50 dataArray JUndefined = JStr (selectedDevice config options)
           /\ (selectedDevice config options = js "cpu"
               \/ selectedDevice config options = js "cuda"))
  /\ (forall uploadPath modelName d1 d2 options i,
        i <> 45 -> i <> 50 ->
        nth i (requestData uploadPath modelName d1 options) JUndefined
        = nth i (requestData uploadPath modelName d2 options) JUndefined).
Proof.
  split.
  - intros net JSON_parse fs path_resolve config filePath options log.
    destruct (transcribeWithWhisper_log net JSON_parse fs path_resolve config
                filePath options log) as (added & E & H).
    exists added. split; [exact E|].
    intros req dataArray Hin Hs.
    destruct (H req dataArray Hin Hs) as (u & m & ->).
    split; [apply requestData_length|].
    split; [apply requestData_device|].
    split; [apply requestData_device|].
    apply normalizeGradioDevice_range.
  - intros uploadPath modelName d1 d2 options i. apply requestData_other.
Qed.

Lemma call_data_vector_witness :
  nth 6 (requestData JUndefined (js "base") (js "cpu") (JObj [])) JUndefined
  = nth 6 (requestData JUndefined (js "base") (js "cuda") (JObj [])) JUndefined
  /\ forall dataArray,
       sentData
         (callRequest service transcribeFile
            (requestData (JStr (js "/tmp/gradio/a.wav")) (js "base")
               (js "cuda") (JObj []))) = Some dataArray ->
       nth 45 dataArray JUndefined = JStr (js "cuda").
Proof.
  split.
  - apply (proj2 call_data_vector); discriminate.
  - destruct (proj1 call_data_vector
                (scriptedNet [uploadReply; callReply; twoEvents])
                scriptedParse recordings absolute gpuConfig
                (js "/srv/audio/clip") (JObj []) []) as (added & E & H).
    intros dataArray Hs.
    refine (proj1 (proj2 (H _ dataArray _ Hs))).
    change ([] ++ added) with added in E. rewrite <- E.
    right. left. reflexivity.
Defined.

End ParameterVectorClaims.

(** ** Result extraction *)

Section ExtractText.

Variable fs : FileSystem.

Lemma nested_data_guard (data : JsValue) :
  (if truthy data then asArray (prop data "data") else None)
  = asArray (prop data "data").
Proof. destruct data as [| |[]|q|[|c s]|items|props]; try reflexivity.
  simpl. destruct (Qnum q =? 0)%Z; reflexivity. Qed.

Lemma nested_text_guard (data : JsValue) :
  (if truthy data then asString (prop data "text") else None)
  = asString (prop data "text").
Proof. destruct data as [| |[]|q|[|c s]|items|props]; try reflexivity.
  simpl. destruct (Qnum q =? 0)%Z; reflexivity. Qed.

Lemma extract_named_fields (result : JsValue) :
  namedFieldsOnly result ->
  extractWhisperText fs result
  = match asString (prop result "text") with
    | Some t => Ok (trim t)
    | None =>
        match asString (prop result "transcription") with
        | Some t => Ok (trim t)
        | None =>
            match asString (prop (prop result "data") "text") with
            | Some t => Ok (trim t)
            | None =>
                match asString (prop result "outputPath") with
                | Some p =>
                    if existsSync fs p then readTrimmed fs p else Ok []
                | None => Ok []
                end
            end
        end
    end.
Proof.
  intros (Ht & Ha & Hs & Hd & Hdd). unfold extractWhisperText.
  rewrite Ht, Ha, Hd, nested_data_guard, Hdd, Hs, nested_text_guard.
  reflexivity.
Qed.

Lemma readTrimmed_file (p contents : jsstring) :
  fs p = Some (File contents) ->
  existsSync fs p = true /\ readTrimmed fs p = Ok (trim contents).
Proof.
  intros H. unfold existsSync, readTrimmed, readFileSync. rewrite H. auto.
Qed.

Lemma readTrimmed_read (p : jsstring) :
  (exists contents, readFileSync fs p = Ok contents) ->
  exists s, readTrimmed fs p = Ok s.
Proof. intros (c & H). unfold readTrimmed. rewrite H. eauto. Qed.

Lemma printable_nullish (x : JsValue) :
  printable (nullish x (JStr [])) = printable x.
Proof. destruct x; reflexivity. Qed.

Lemma stringOfFirst_cases (x : JsValue) :
  stringOfFirst x
  = if printable x then Ok (trim (toString (nullish x (JStr []))))
    else Throw TypeError.
Proof.
  unfold stringOfFirst, printed. rewrite printable_nullish.
  destruct (printable x); reflexivity.
Qed.

End ExtractText.

Section ExtractTextClaims.

(** C5 (as stated, refuted).  An array whose first element is an object
    without a [text] field, or a number, matches none of the listed shapes,
    yet the result is the printed element, not the empty string; and the
    extraction can throw: on an element whose own [toString] key makes
    [String()] throw, and on a string that names a directory. *)
Lemma extractWhisperText_unmatched_not_empty :
  extractWhisperText (fun _ => None) (JArr [JObj []])
  = Ok (js "[object Object]")
  /\ extractWhisperText (fun _ => None) (JArr [JNum 5]) = Ok (js "5")
  /\ extractWhisperText (fun _ => None) (JArr [JObj []]) <> Ok []
  /\ extractWhisperText (fun _ => None) (JArr [unprintable]) = Throw TypeError
  /\ extractWhisperText withDirectory (JStr (js "/srv/audio"))
     = Throw (External (js "EISDIR")).
Proof. repeat split; try reflexivity. vm_compute. discriminate. Qed.

(** C5 (amended).  [extractWhisperText] tries the shapes in a fixed order
    and the first match wins: a falsy result gives the empty string; an
    array gives the trimmed [text] of its first element when that is an
    object with a string [text], and otherwise the trimmed printed form of
    its first element (the element itself for a string, the empty string
    for no element); a [data] array, directly or one level down, gives the
    trimmed printed form of its first element; printing throws a
    [TypeError] when the element cannot be printed; a string gives the
    trimmed contents of the file it names, or itself trimmed when it names
    nothing, and the error of the read when the path exists but cannot be
    read; then come the trimmed [text], [transcription], [data.text], and
    the trimmed contents of the file named by [outputPath]; anything else
    gives the empty string.  When the elements it may print are printable
    and the existing paths it may read can be read, the result is a
    string. *)
Theorem extractWhisperText_precedence (fs : FileSystem) :
  (forall result, truthy result = false -> extractWhisperText fs result = Ok [])
  /\ (forall props t rest,
        prop (JObj props) "text" = JStr t ->
        extractWhisperText fs (JArr (JObj props :: rest)) = Ok (trim t))
  /\ (forall s rest, extractWhisperText fs (JArr (JStr s :: rest)) = Ok (trim s))
  /\ (forall items,
        asString (prop (first items) "text") = None ->
        extractWhisperText fs (JArr items)
        = if printable (first items)
          then Ok (trim (toString (nullish (first items) (JStr []))))
          else Throw TypeError)
  /\ (forall result items,
        truthy result = true -> asArray result = None ->
        prop result "data" = JArr items ->
        extractWhisperText fs result
        = if printable (first items)
          then Ok (trim (toString (nullish (first items) (JStr []))))
          else Throw TypeError)
  /\ (forall result items,
        truthy result = true -> asArray result = None ->
        asArray (prop result "data") = None ->
        prop (prop result "data") "data" = JArr items ->
        extractWhisperText fs result
        = if printable (first items)
          then Ok (trim (toString (nullish (first items) (JStr []))))
          else Throw TypeError)
  /\ (forall s,
        s <> [] -> fs s = None -> extractWhisperText fs (JStr s) = Ok (trim s))
  /\ (forall s contents,
        s <> [] -> fs s = Some (File contents) ->
        extractWhisperText fs (JStr s) = Ok (trim contents))
  /\ (forall s e,
        s <> [] -> existsSync fs s = true -> readFileSync fs s = Throw e ->
        extractWhisperText fs (JStr s) = Throw e)
  /\ (forall result t,
        namedFieldsOnly result -> prop result "text" = JStr t ->
        extractWhisperText fs result = Ok (trim t))
  /\ (forall result t,
        namedFieldsOnly result ->
        asString (prop result "text") = None ->
        prop result "transcription" = JStr t ->
        extractWhisperText fs result = Ok (trim t))
  /\ (forall result t,
        namedFieldsOnly result ->
        asString (prop result "text") = None ->
        asString (prop result "transcription") = None ->
        prop (prop result "data") "text" = JStr t ->
        extractWhisperText fs result = Ok (trim t))
  /\ (forall result p contents,
        namedFieldsOnly result ->
        asString (prop result "text") = None ->
        asString (prop result "transcription") = None ->
        asString (prop (prop result "data") "text") = None ->
        prop result "outputPath" = JStr p -> fs p = Some (File contents) ->
        extractWhisperText fs result = Ok (trim contents))
  /\ (forall result,
        namedFieldsOnly result ->
        asString (prop result "text") = None ->
        asString (prop result "transcription") = None ->
        asString (prop (prop result "data") "text") = None ->
        (asString (prop result "outputPath") = None
         \/ exists p, prop result "outputPath" = JStr p /\ fs p = None) ->
        extractWhisperText fs result = Ok [])
  /\ (forall result,
        printsFirst result -> readsFiles fs result ->
        exists s, extractWhisperText fs result = Ok s).
Proof.
  repeat match goal with |- _ /\ _ => split end.
  - intros result H. unfold extractWhisperText. rewrite H. reflexivity.
  - intros props t rest H. unfold extractWhisperText. cbn [truthy negb asArray first].
    rewrite H. reflexivity.
  - intros s rest. reflexivity.
  - intros items H. unfold extractWhisperText. cbn [truthy negb asArray].
    rewrite H. apply stringOfFirst_cases.
  - intros result items Ht Ha Hd. unfold extractWhisperText.
    rewrite Ht, Ha, Hd. apply stringOfFirst_cases.
  - intros result items Ht Ha Hd Hdd. unfold extractWhisperText.
    rewrite Ht, Ha, Hd, nested_data_guard, Hdd. apply stringOfFirst_cases.
  - intros s Hne Hf. unfold extractWhisperText, existsSync.
    destruct s; [contradiction|]. cbn. rewrite Hf. reflexivity.
  - intros s contents Hne Hf. unfold extractWhisperText.
    destruct s as [|c s]; [contradiction|].
    destruct (readTrimmed_file fs (c :: s) Hf) as [He Hr].
    cbn [truthy negb asArray asString prop]. cbn iota. rewrite He. exact Hr.
  - intros s e Hne He Hr. unfold extractWhisperText.
    destruct s as [|c s]; [contradiction|].
    cbn [truthy negb asArray asString prop]. cbn iota. rewrite He.
    unfold readTrimmed. rewrite Hr. reflexivity.
  - intros result t Hn H. rewrite (extract_named_fields fs Hn), H. reflexivity.
  - intros result t Hn H1 H. rewrite (extract_named_fields fs Hn), H1, H.
    reflexivity.
  - intros result t Hn H1 H2 H.
    rewrite (extract_named_fields fs Hn), H1, H2, H. reflexivity.
  - intros result p contents Hn H1 H2 H3 H Hf.
    rewrite (extract_named_fields fs Hn), H1, H2, H3, H.
    destruct (readTrimmed_file fs p Hf) as [He Hr].
    cbn [asString]. rewrite He. exact Hr.
  - intros result Hn H1 H2 H3 [H|(p & H & Hf)];
      rewrite (extract_named_fields fs Hn), H1, H2, H3, H; [reflexivity|].
    cbn [asString]. unfold existsSync. rewrite Hf. reflexivity.
  - intros result Hp Hr. unfold extractWhisperText.
    destruct (truthy result); cbn [negb]; [|eauto].
    destruct (asArray result) as [items|] eqn:A.
    { rewrite stringOfFirst_cases, (Hp items) by auto.
      destruct (asString (prop (first items) "text"));
        [destruct (truthy (first items) && isObjectType (first items))|];
        eauto. }
    destruct (asArray (prop result "data")) as [items|] eqn:D.
    { rewrite stringOfFirst_cases, (Hp items) by auto. eauto. }
    rewrite nested_data_guard.
    destruct (asArray (prop (prop result "data") "data")) as [items|] eqn:DD.
    { rewrite stringOfFirst_cases, (Hp items) by auto. eauto. }
    destruct (asString result) as [s|] eqn:S.
    { destruct (existsSync fs s) eqn:E; [|eauto].
      apply readTrimmed_read, Hr; auto. }
    destruct (asString (prop result "text")); [eauto|].
    destruct (asString (prop result "transcription")); [eauto|].
    destruct (if truthy (prop result "data") then _ else None); [eauto|].
    destruct (asString (prop result "outputPath")) as [p|] eqn:O; [|eauto].
    destruct (existsSync fs p) eqn:E; [|eauto].
    apply readTrimmed_read, Hr; auto.
Qed.

Lemma extractWhisperText_precedence_witness :
  extractWhisperText recordings
    (JArr [JObj [(js "text", JStr (js " hi "))]; JStr (js "x")])
  = Ok (js "hi")
  /\ extractWhisperText recordings
       (JObj [(js "data", JObj [(js "text", JStr (js "deep "))]);
              (js "outputPath", JStr (js "/srv/audio/clip"))])
     = Ok (js "deep")
  /\ extractWhisperText withDirectory
       (JObj [(js "data", JArr [JStr (js " first "); unprintable])])
     = Ok (js "first")
  /\ exists s,
       extractWhisperText withDirectory
         (JObj [(js "outputPath", JStr (js "/srv/audio/clip"))]) = Ok s.
Proof.
  destruct (extractWhisperText_precedence recordings)
    as (_ & Harr & _ & _ & _ & _ & _ & _ & _ & _ & _ & Hdeep & _).
  destruct (extractWhisperText_precedence withDirectory)
    as (_ & _ & _ & _ & Hdata & _ & _ & _ & _ & _ & _ & _ & _ & _ & Htotal).
  split; [|split; [|split]].
  - apply (Harr [(js "text", JStr (js " hi "))] (js " hi ") [JStr (js "x")]).
    reflexivity.
  - apply (Hdeep (JObj [(js "data", JObj [(js "text", JStr (js "deep "))]);
                        (js "outputPath", JStr (js "/srv/audio/clip"))])
             (js "deep ")); try reflexivity.
    repeat split.
  - exact (Hdata (JObj [(js "data", JArr [JStr (js " first "); unprintable])])
             [JStr (js " first "); unprintable] eq_refl eq_refl eq_refl).
  - apply Htotal.
    + intros items [H|[H|H]]; discriminate H.
    + intros p [H|H]; [discriminate H|].
      injection H as <-. intros _. exists (js "RIFF"). reflexivity.
Defined.

End ExtractTextClaims.

(** * Further properties of the module *)

(** ** Device and base-URL normalization *)

Section Normalizers.

Lemma or_else_empty (s : jsstring) : toString (or_else (JStr s) (JStr [])) = s.
Proof. destruct s; reflexivity. Qed.

(** X1.  Device normalization answers ["cuda"] exactly when the lowercased
    text of the device is ["gpu"] or ["cuda"] and ["cpu"] otherwise; it
    ignores letter case, and it is stable: normalizing its own result
    changes nothing. *)
Theorem normalizeGradioDevice_stable :
  (forall device,
      let raw := toLowerCase (toString (or_else device (JStr []))) in
      (normalizeGradioDevice device = js "cuda"
       <-> raw = js "gpu" \/ raw = js "cuda")
      /\ (normalizeGradioDevice device = js "cpu"
          <-> raw <> js "gpu" /\ raw <> js "cuda"))
  /\ (forall s,
        normalizeGradioDevice (JStr (toLowerCase s))
        = normalizeGradioDevice (JStr s))
  /\ (forall device,
        normalizeGradioDevice (JStr (normalizeGradioDevice device))
        = normalizeGradioDevice device).
Proof.
  split; [|split].
  - intros device raw. unfold normalizeGradioDevice. fold raw.
    destruct (eqs raw (js "gpu")) eqn:E1; cbn [orb].
    + apply eqs_true in E1. split; split; auto; try discriminate.
      intros [H _]. contradiction.
    + apply eqs_false in E1.
      destruct (eqs raw (js "cuda")) eqn:E2.
      * apply eqs_true in E2. split; split; auto; try discriminate.
        intros [_ H]. contradiction.
      * apply eqs_false in E2. split; split; auto; try discriminate.
        intros [H|H]; contradiction.
  - intros s. unfold normalizeGradioDevice.
    rewrite !or_else_empty, toLowerCase_idem. reflexivity.
  - intros device.
    destruct (normalizeGradioDevice_range device) as [-> | ->]; reflexivity.
Qed.

Lemma normalizeGradioDevice_stable_witness :
  normalizeGradioDevice (JStr (js "CUDA")) = js "cuda".
Proof.
  apply (proj1 (proj1 normalizeGradioDevice_stable (JStr (js "CUDA")))).
  right. reflexivity.
Defined.

Lemma dropWhile_split (p : ascii -> bool) (s : jsstring) :
  s = takeWhile p s ++ dropWhile p s.
Proof.
  induction s as [|c s IH]; simpl; [reflexivity|].
  destruct (p c); simpl; [f_equal; exact IH | reflexivity].
Qed.

Lemma dropWhile_head (p : ascii -> bool) (s : jsstring) (c : ascii)
  (r : jsstring) :
  dropWhile p s = c :: r -> p c = false.
Proof.
  induction s as [|d s IH]; simpl; [discriminate|].
  destruct (p d) eqn:E; [exact IH|]. intros H. injection H as <- _. exact E.
Qed.

Lemma dropWhile_idem (p : ascii -> bool) (s : jsstring) :
  dropWhile p (dropWhile p s) = dropWhile p s.
Proof.
  destruct (dropWhile p s) as [|c r] eqn:E; [reflexivity|].
  simpl. rewrite (dropWhile_head p s E). reflexivity.
Qed.

Lemma takeWhile_repeat (s : jsstring) :
  takeWhile (eqc SLASH) s
  = repeat SLASH (List.length (takeWhile (eqc SLASH) s)).
Proof.
  induction s as [|c s IH]; simpl; [reflexivity|].
  destruct (eqc SLASH c) eqn:E; simpl; [|reflexivity].
  apply eqc_true in E. subst c. f_equal. exact IH.
Qed.

Lemma rev_repeat (c : ascii) (n : nat) : rev (repeat c n) = repeat c n.
Proof.
  induction n as [|n IH]; simpl; [reflexivity|].
  rewrite IH. symmetry. apply repeat_cons.
Qed.

(** X2.  The normalized base URL is the URL text without its trailing
    slashes: only slashes are removed, and only at the end; the result does
    not end with a slash; and normalizing it again changes nothing. *)
Theorem normalizeBaseUrl_no_trailing_slash (url : JsValue) :
  (exists n, toString url = normalizeBaseUrl url ++ repeat SLASH n)
  /\ (forall prefix, normalizeBaseUrl url <> prefix ++ [SLASH])
  /\ normalizeBaseUrl (JStr (normalizeBaseUrl url)) = normalizeBaseUrl url.
Proof.
  unfold normalizeBaseUrl, stripTrailingSlashes. cbn [toString].
  set (r := rev (toString url)).
  change (ch 47) with SLASH.
  split; [|split].
  - exists (List.length (takeWhile (eqc SLASH) r)).
    rewrite <- rev_repeat, <- takeWhile_repeat, <- rev_app_distr.
    rewrite <- dropWhile_split. unfold r. rewrite rev_involutive. reflexivity.
  - intros prefix H. apply (f_equal (@rev ascii)) in H.
    rewrite rev_involutive, rev_app_distr in H. simpl in H.
    apply dropWhile_head in H. rewrite eqc_refl in H. discriminate.
  - rewrite rev_involutive, dropWhile_idem. reflexivity.
Qed.

End Normalizers.

(** ** Model names *)

Section ModelNameRange.

(** X3.  A normalized model name is canonical: it is lower case, it has no
    white space around it, and it is never one of the aliases ["mid"],
    ["large_v2"], ["largev2"]. *)
Theorem normalizeWhisperModel_canonical (modelName : JsValue) :
  toLowerCase (normalizeWhisperModel modelName) = normalizeWhisperModel modelName
  /\ trim (normalizeWhisperModel modelName) = normalizeWhisperModel modelName
  /\ normalizeWhisperModel modelName <> js "mid"
  /\ normalizeWhisperModel modelName <> js "large_v2"
  /\ normalizeWhisperModel modelName <> js "largev2".
Proof.
  unfold normalizeWhisperModel.
  destruct (truthy modelName); cbn [negb];
    [|repeat split; try reflexivity; discriminate].
  set (n := trim (toLowerCase (toString modelName))).
  assert (Hl : toLowerCase n = n).
  { unfold n. rewrite <- trim_lower, toLowerCase_idem. reflexivity. }
  assert (Ht : trim n = n) by apply trim_idem.
  destruct (eqs n (js "mid")) eqn:E1;
    [repeat split; try reflexivity; discriminate|].
  destruct (eqs n (js "large_v2")) eqn:E2; cbn [orb];
    [repeat split; try reflexivity; discriminate|].
  destruct (eqs n (js "largev2")) eqn:E3;
    [repeat split; try reflexivity; discriminate|].
  apply eqs_false in E1, E2, E3. repeat split; assumption.
Qed.


End ModelNameRange.

(** ** Result extraction across the variants *)

Section LegacyExtraction.

Variable fs : FileSystem.

(** X5.  The current [extractWhisperText] extends the one of the
    whisper.cpp variant: on every result that is not an array and has no
    [data] array, directly or one level down, the two return the same. *)
Theorem extractWhisperText_extends_legacy (result : JsValue) :
  asArray result = None ->
  asArray (prop result "data") = None ->
  asArray (prop (prop result "data") "data") = None ->
  extractWhisperText fs result = Legacy.extractWhisperText fs result.
Proof.
  intros Ha Hd Hdd. unfold extractWhisperText, Legacy.extractWhisperText.
  destruct (truthy result); cbn [negb]; [|reflexivity].
  rewrite Ha, Hd, nested_data_guard, Hdd. reflexivity.
Qed.

End LegacyExtraction.

Lemma extractWhisperText_extends_legacy_witness :
  extractWhisperText recordings
    (JObj [(js "transcription", JStr (js " spoken "))])
  = Legacy.extractWhisperText recordings
      (JObj [(js "transcription", JStr (js " spoken "))]).
Proof.
  apply extractWhisperText_extends_legacy; reflexivity.
Defined.

(** ** Subtitle cleanup: when nothing is left *)

Section EmptyCleanup.

Lemma keptLines_nil (lines : list jsstring) :
  keptLines lines = [] <->
  (forall line, In line lines -> skipped (trim line) = true).
Proof.
  induction lines as [|l rest IH]; simpl.
  - split; [intros _ line [] | reflexivity].
  - destruct (skipped (trim l)) eqn:E.
    + rewrite IH. split.
      * intros H line [<-|Hin]; [exact E | apply H, Hin].
      * intros H line Hin. apply H. right. exact Hin.
    + split; [discriminate|]. intros H.
      rewrite (H l) in E by (left; reflexivity). discriminate.
Qed.

Lemma trim_head (s : jsstring) : headNotSpace (trim s).
Proof. unfold trim. apply trimEnd_head, trimStart_head. Qed.

Lemma trim_starts_nonempty (c : ascii) (r : jsstring) :
  isWhiteSpace c = false -> trim (c :: r) <> [].
Proof.
  intros H. unfold trim. cbn [trimStart]. rewrite H. cbn [trimEnd].
  destruct (trimEnd r); [rewrite H|]; discriminate.
Qed.

Lemma keptLines_head (lines : list jsstring) (l : jsstring)
  (rest : list jsstring) :
  keptLines lines = l :: rest ->
  exists c r, l = c :: r /\ isWhiteSpace c = false.
Proof.
  induction lines as [|x xs IH]; simpl; [discriminate|].
  destruct (skipped (trim x)) eqn:E; [exact IH|].
  intros H. injection H as <- _.
  pose proof (trim_head x) as Hh.
  destruct (trim x) as [|c r]; [discriminate|].
  exists c, r. split; [reflexivity | exact Hh].
Qed.

(** X6.  Cleanup returns the empty string exactly when every line left
    after the stamp is removed is blank, a sequence number, a time range or
    a banner; as soon as one line is kept the result is not empty. *)
Theorem stripSrt_empty_iff (text : jsstring) :
  stripSrt text = [] <->
  (forall line,
      In line (splitLines (stripStamp (trim text))) ->
      skipped (trim line) = true).
Proof.
  rewrite <- keptLines_nil. unfold stripSrt.
  destruct (keptLines (splitLines (stripStamp (trim text)))) as [|l rest] eqn:E.
  - split; reflexivity.
  - split; [|discriminate]. intros H. exfalso.
    destruct (keptLines_head _ E) as (c & r & -> & Hc).
    assert (Hj : exists tail, join (js " ") ((c :: r) :: rest) = c :: tail).
    { destruct rest; simpl; eauto. }
    destruct Hj as (tail & Hj).
    exact (@trim_starts_nonempty c tail Hc
             (eq_trans (eq_sym (f_equal trim Hj)) H)).
Qed.

End EmptyCleanup.

(** ** File names and MIME types *)

Section FileNames.

Lemma takeWhile_map (f : ascii -> ascii) (p : ascii -> bool) (s : jsstring) :
  (forall c, p (f c) = p c) ->
  takeWhile p (map f s) = map f (takeWhile p s).
Proof.
  intros H. induction s as [|c s IH]; simpl; [reflexivity|].
  rewrite H. destruct (p c); simpl; [f_equal; exact IH | reflexivity].
Qed.

Lemma dropWhile_map (f : ascii -> ascii) (p : ascii -> bool) (s : jsstring) :
  (forall c, p (f c) = p c) ->
  dropWhile p (map f s) = map f (dropWhile p s).
Proof.
  intros H. induction s as [|c s IH]; simpl; [reflexivity|].
  rewrite H. destruct (p c); simpl; [exact IH | reflexivity].
Qed.

Lemma lowerChar_slash (c : ascii) :
  eqc (lowerChar c) SLASH = eqc c SLASH /\ eqc SLASH (lowerChar c) = eqc SLASH c.
Proof. destruct c as [[] [] [] [] [] [] [] []]; split; reflexivity. Qed.

Lemma lowerChar_dot (c : ascii) : eqc (lowerChar c) DOT = eqc c DOT.
Proof. destruct c as [[] [] [] [] [] [] [] []]; reflexivity. Qed.

Lemma basename_lower (p : jsstring) :
  basename (toLowerCase p) = toLowerCase (basename p).
Proof.
  unfold basename, toLowerCase.
  rewrite <- map_rev, dropWhile_map, takeWhile_map, map_rev; [reflexivity| |].
  - intros c. rewrite (proj1 (lowerChar_slash c)). reflexivity.
  - intros c. apply lowerChar_slash.
Qed.

Lemma extname_lower (p : jsstring) :
  extname (toLowerCase p) = toLowerCase (extname p).
Proof.
  unfold extname. rewrite basename_lower. unfold toLowerCase.
  rewrite <- map_rev.
  set (notDot := fun c => negb (eqc c DOT)).
  assert (Hd : forall c, notDot (lowerChar c) = notDot c).
  { intros c. unfold notDot. rewrite lowerChar_dot. reflexivity. }
  rewrite (takeWhile_map lowerChar notDot _ Hd),
    (dropWhile_map lowerChar notDot _ Hd).
  destruct (dropWhile notDot (rev (basename p))) as [|dot before];
    [reflexivity|].
  cbn [map]. destruct before as [|c [|d before]]; cbn [map].
  - reflexivity.
  - rewrite lowerChar_dot, length_map.
    destruct (eqc c DOT && _); [reflexivity|].
    change [lowerChar dot] with (map lowerChar [dot]).
    rewrite <- map_app, map_rev. reflexivity.
  - change [lowerChar dot] with (map lowerChar [dot]).
    rewrite <- map_app, map_rev. reflexivity.
Qed.

(** X7.  The MIME type does not depend on the letter case of the file
    name, and it is always one of the six audio types or
    [application/octet-stream]. *)
Theorem getMimeType_case_insensitive (fileName : jsstring) :
  getMimeType (toLowerCase fileName) = getMimeType fileName
  /\ In (getMimeType fileName) mimeRange.
Proof.
  split.
  - unfold getMimeType. rewrite extname_lower, toLowerCase_idem. reflexivity.
  - unfold getMimeType.
    repeat match goal with
           | |- context [if eqs ?a ?b then _ else _] => destruct (eqs a b)
           end; simpl; tauto.
Qed.

(** X8.  The name a file is uploaded under always has an extension when
    the base name is not empty, and it is stable: sending a file whose
    base name is already an upload name does not rename it again. *)
Theorem uploadName_has_extension (p : jsstring) :
  basename p <> [] ->
  extname (uploadName (basename p)) <> []
  /\ uploadName (uploadName (basename p)) = uploadName (basename p).
Proof.
  intros Hne.
  assert (Hfix : forall b, extname b <> [] -> uploadName b = b).
  { intros b Hb. unfold uploadName.
    destruct (toLowerCase (extname b)) eqn:E; [|reflexivity].
    apply (proj1 (toLowerCase_nil _)) in E. contradiction. }
  assert (Hext : extname (uploadName (basename p)) <> []).
  { destruct (extname (basename p)) as [|c r] eqn:E.
    - unfold uploadName. rewrite E. cbn [toLowerCase map].
      rewrite extname_wav; [discriminate | exact Hne | apply basename_no_slash].
    - rewrite Hfix; rewrite E; discriminate. }
  split; [exact Hext | apply Hfix, Hext].
Qed.

Lemma uploadName_has_extension_witness :
  extname (uploadName (basename (js "/srv/audio/clip"))) <> []
  /\ uploadName (uploadName (basename (js "/srv/audio/clip")))
     = uploadName (basename (js "/srv/audio/clip")).
Proof.
  apply uploadName_has_extension. vm_compute. discriminate.
Defined.

End FileNames.

(** ** The remote batch client: what each step sends and returns *)

Section BatchSteps.

Variable net : Network.
Variable JSON_parse : jsstring -> option JsValue.
Variable fs : FileSystem.
Variable path_resolve : jsstring -> jsstring.
Variable config : JsValue.

(** X9.  The upload reads the file before it contacts the service: when
    the path does not name a readable file it throws without sending
    anything; and whenever it returns, it has sent exactly the upload
    [POST], the service answered OK with a JSON array, and the value
    returned is the truthy first element of that array. *)
Theorem uploadToGradio_outcome (apiUrl : JsValue) (filePath : jsstring)
  (log : Log) :
  ((forall data, fs (path_resolve filePath) <> Some (File data)) ->
   exists e,
     uploadToGradio net JSON_parse fs path_resolve apiUrl filePath log
     = (Throw e, log))
  /\ (forall v log',
        uploadToGradio net JSON_parse fs path_resolve apiUrl filePath log
        = (Ok v, log') ->
        truthy v = true
        /\ exists data response items,
             fs (path_resolve filePath) = Some (File data)
             /\ log' = log ++ [uploadRequest apiUrl
                                 (uploadName (basename (path_resolve filePath)))
                                 data]
             /\ net log (uploadRequest apiUrl
                           (uploadName (basename (path_resolve filePath))) data)
                = Ok response
             /\ ok response = true
             /\ JSON_parse (text response) = Some (JArr items)
             /\ v = first items).
Proof.
  unfold uploadToGradio, bind, readFile, lift, readFileSync, fetch, json,
    throw, ret.
  destruct (fs (path_resolve filePath)) as [[data| |]|] eqn:F.
  - fold (uploadRequest apiUrl (uploadName (basename (path_resolve filePath)))
            data).
    split; [intros H; exfalso; exact (H data eq_refl)|].
    intros v log'.
    destruct (net log _) as [response|e] eqn:N; [|discriminate].
    destruct (ok response) eqn:O; cbn [negb]; [|discriminate].
    destruct (JSON_parse (text response)) as [result|] eqn:P; [|discriminate].
    destruct result; try discriminate.
    destruct (truthy (first items)) eqn:T; cbn [negb]; [|discriminate].
    intros H. injection H as <- <-.
    split; [exact T|]. exists data, response, items. auto 10.
  - split; [eauto | discriminate].
  - split; [eauto | discriminate].
  - split; [eauto | discriminate].
Qed.

(** X10.  The call step sends the call [POST] first and at most one more
    request, the event-poll [GET]; the [GET] is sent only after the service
    answered the [POST] with an OK status and a JSON body carrying a truthy
    event identifier; and the step returns a value only after the [GET]. *)
Theorem callGradio_polls_only_with_event_id (apiUrl apiName : JsValue)
  (dataArray : list JsValue) (log : Log) :
  exists tail,
    snd (callGradio net JSON_parse apiUrl apiName dataArray log)
    = log ++ callRequest apiUrl apiName dataArray :: tail
    /\ (tail = []
        \/ exists response result eventId,
             tail = [eventRequest apiUrl apiName eventId]
             /\ net log (callRequest apiUrl apiName dataArray) = Ok response
             /\ ok response = true
             /\ JSON_parse (text response) = Some result
             /\ selectEventId result = Ok eventId
             /\ truthy eventId = true)
    /\ (forall v,
          fst (callGradio net JSON_parse apiUrl apiName dataArray log) = Ok v ->
          tail <> []).
Proof.
  unfold callGradio, bind, fetch, json, lift, throw, ret.
  fold (callRequest apiUrl apiName dataArray).
  destruct (net log _) as [response|e] eqn:N;
    [|exists []; cbn; repeat split; auto; discriminate].
  destruct (ok response) eqn:O; cbn [negb];
    [|exists []; cbn; repeat split; auto; discriminate].
  destruct (JSON_parse (text response)) as [result|] eqn:P;
    [|exists []; cbn; repeat split; auto; discriminate].
  destruct (selectEventId result) as [eventId|e] eqn:S;
    [|exists []; cbn; repeat split; auto; discriminate].
  destruct (truthy eventId) eqn:T; cbn [negb];
    [|exists []; cbn; repeat split; auto; discriminate].
  fold (eventRequest apiUrl apiName eventId).
  exists [eventRequest apiUrl apiName eventId]. split; [|split].
  - destruct (net _ (eventRequest apiUrl apiName eventId)) as [er|e];
      [destruct (ok er)|]; cbn [negb snd]; rewrite <- app_assoc; reflexivity.
  - right. exists response, result, eventId. auto 10.
  - discriminate.
Qed.






End BatchSteps.

(** ** The offline recognizer on arbitrary event sequences *)

Section RecognizerInvariants.

Variable finalResult : list Chunk -> Result (option FinalResult).

Lemma dispatch_frees (st : Session) (ev : StreamEvent) :
  frees (dispatch finalResult st ev)
  = frees st + (if isTerminal ev then 1 else 0).
Proof.
  unfold frees. destruct ev as [chunk| |err]; cbn [dispatch isTerminal].
  - unfold onData. cbn [calls]. rewrite filter_app, length_app. reflexivity.
  - unfold onEnd.
    destruct (finalResult (fed st)) as [result|err];
      [destruct (truthy (JStr (bestText result)))|];
      unfold resolve, reject, free, settle, log; cbn [calls];
      rewrite !filter_app, !length_app; cbn; lia.
  - unfold onError, reject, free, settle, log. cbn [calls].
    rewrite !filter_app, !length_app. cbn. lia.
Qed.

Lemma fold_frees (stream : list StreamEvent) (st : Session) :
  frees (fold_left (dispatch finalResult) stream st)
  = frees st + terminals stream.
Proof.
  revert st. induction stream as [|ev rest IH]; intros st; cbn [fold_left].
  - unfold terminals. cbn. lia.
  - rewrite IH, dispatch_frees. unfold terminals. cbn [filter].
    destruct (isTerminal ev); cbn [List.length]; lia.
Qed.

Lemma dispatch_keeps_settled (st : Session) (ev : StreamEvent)
  (r : Result JsValue) :
  settled st = Some r -> settled (dispatch finalResult st ev) = Some r.
Proof.
  intros H. destruct ev as [chunk| |err]; cbn [dispatch].
  - exact H.
  - unfold onEnd.
    destruct (finalResult (fed st)) as [result|err];
      [destruct (truthy (JStr (bestText result)))|];
      unfold resolve, reject, free, settle, log; cbn [settled calls fed];
      rewrite H; reflexivity.
  - unfold onError, reject, free, settle, log. cbn [settled calls fed].
    rewrite H. reflexivity.
Qed.

Lemma fold_keeps_settled (stream : list StreamEvent) (st : Session)
  (r : Result JsValue) :
  settled st = Some r ->
  settled (fold_left (dispatch finalResult) stream st) = Some r.
Proof.
  revert st. induction stream as [|ev rest IH]; intros st H; cbn [fold_left].
  - exact H.
  - apply IH, dispatch_keeps_settled, H.
Qed.

Lemma dispatch_settles (st : Session) (ev : StreamEvent) :
  isTerminal ev = true -> settled (dispatch finalResult st ev) <> None.
Proof.
  destruct ev as [chunk| |err]; cbn [dispatch isTerminal]; [discriminate| |];
    intros _.
  - unfold onEnd.
    destruct (finalResult (fed st)) as [result|err];
      [destruct (truthy (JStr (bestText result)))|];
      unfold resolve, reject, free, settle, log; cbn [settled calls fed];
      destruct (settled st); discriminate.
  - unfold onError, reject, free, settle, log. cbn [settled calls fed].
    destruct (settled st); discriminate.
Qed.

Lemma fold_unsettled (stream : list StreamEvent) (st : Session) :
  settled (fold_left (dispatch finalResult) stream st) = None <->
  settled st = None /\ filter isTerminal stream = [].
Proof.
  revert st. induction stream as [|ev rest IH]; intros st; cbn [fold_left filter].
  - tauto.
  - rewrite IH. destruct (isTerminal ev) eqn:T.
    + pose proof (dispatch_settles st ev T) as H.
      split; [tauto | intros [_ H']; discriminate].
    + destruct ev; try discriminate. cbn [dispatch]. unfold onData.
      cbn [settled]. tauto.
Qed.

Lemma transcribeWithVosk_ready (env : Env) (stream : list StreamEvent) :
  voskLoader env = ModelReady -> newRecognizer env = Ok tt ->
  transcribeWithVosk finalResult env stream
  = fold_left (dispatch finalResult) stream ready.
Proof.
  intros Hl Hr. unfold transcribeWithVosk. rewrite Hl, Hr. reflexivity.
Qed.

(** X12.  The listeners are not guarded against a second ending: once the
    recognizer exists, whatever sequence of events the stream emits, the
    session is released once per ['end'] or ['error'] event (so twice if
    an ['error'] follows the ['end']); the promise stays pending exactly
    as long as no such event arrives; and it keeps its first settlement
    whatever follows. *)
Theorem recognizer_release_per_ending (env : Env)
  (stream : list StreamEvent) :
  voskLoader env = ModelReady -> newRecognizer env = Ok tt ->
  frees (transcribeWithVosk finalResult env stream) = terminals stream
  /\ (settled (transcribeWithVosk finalResult env stream) = None
      <-> terminals stream = 0)
  /\ (forall more r,
        settled (transcribeWithVosk finalResult env stream) = Some r ->
        settled (transcribeWithVosk finalResult env (stream ++ more)) = Some r).
Proof.
  intros Hl Hr. rewrite !(transcribeWithVosk_ready env _ Hl Hr).
  split; [|split].
  - rewrite fold_frees. reflexivity.
  - rewrite fold_unsettled. unfold terminals. cbn [ready settled log idle].
    split.
    + intros [_ ->]. reflexivity.
    + intros H. split; [reflexivity|].
      destruct (filter isTerminal stream); [reflexivity | discriminate].
  - intros more r H. rewrite (transcribeWithVosk_ready env _ Hl Hr).
    rewrite fold_left_app. apply fold_keeps_settled, H.
Qed.

Lemma acceptedChunks_app (l1 l2 : list Call) :
  acceptedChunks (l1 ++ l2) = acceptedChunks l1 ++ acceptedChunks l2.
Proof.
  induction l1 as [|c l1 IH]; [reflexivity|].
  destruct c; cbn [app acceptedChunks]; rewrite IH; reflexivity.
Qed.

Lemma dispatch_accepts (st : Session) (ev : StreamEvent) :
  acceptedChunks (calls (dispatch finalResult st ev))
  = acceptedChunks (calls st) ++ dataChunks [ev]
  /\ fed (dispatch finalResult st ev) = fed st ++ dataChunks [ev].
Proof.
  destruct ev as [chunk| |err]; cbn [dispatch dataChunks].
  - unfold onData. cbn [calls fed]. rewrite acceptedChunks_app. split; reflexivity.
  - unfold onEnd.
    destruct (finalResult (fed st)) as [result|err];
      [destruct (truthy (JStr (bestText result)))|];
      unfold resolve, reject, free, settle, log; cbn [calls fed];
      rewrite !acceptedChunks_app; cbn [acceptedChunks];
      rewrite !app_nil_r; split; reflexivity.
  - unfold onError, reject, free, settle, log. cbn [calls fed].
    rewrite !acceptedChunks_app. cbn [acceptedChunks].
    rewrite !app_nil_r. split; reflexivity.
Qed.

Lemma dataChunks_cons (ev : StreamEvent) (rest : list StreamEvent) :
  dataChunks (ev :: rest) = dataChunks [ev] ++ dataChunks rest.
Proof. destruct ev; reflexivity. Qed.

Lemma fold_accepts (stream : list StreamEvent) (st : Session) :
  acceptedChunks (calls (fold_left (dispatch finalResult) stream st))
  = acceptedChunks (calls st) ++ dataChunks stream
  /\ fed (fold_left (dispatch finalResult) stream st)
     = fed st ++ dataChunks stream.
Proof.
  revert st. induction stream as [|ev rest IH]; intros st; cbn [fold_left].
  - cbn [dataChunks]. rewrite !app_nil_r. split; reflexivity.
  - destruct (IH (dispatch finalResult st ev)) as [H1 H2].
    destruct (dispatch_accepts st ev) as [H3 H4].
    rewrite H1, H2, H3, H4, (dataChunks_cons ev rest), <- !app_assoc.
    split; reflexivity.
Qed.

(** X13.  The recognizer hears the file as the stream delivers it: once
    the recognizer exists, the chunks passed to [acceptWaveform] are
    exactly the chunks of the stream's ['data'] events, in their order,
    with nothing dropped, repeated or reordered. *)
Theorem recognizer_fed_in_order (env : Env) (stream : list StreamEvent) :
  voskLoader env = ModelReady -> newRecognizer env = Ok tt ->
  acceptedChunks (calls (transcribeWithVosk finalResult env stream))
  = dataChunks stream
  /\ fed (transcribeWithVosk finalResult env stream) = dataChunks stream.
Proof.
  intros Hl Hr. rewrite (transcribeWithVosk_ready env _ Hl Hr).
  destruct (fold_accepts stream ready) as [H1 H2]. rewrite H1, H2.
  split; reflexivity.
Qed.

(** X14.  When the recognizer cannot be set up, nothing is done to one:
    a missing model ends the process and leaves the promise pending; an
    exception from the model or recognizer constructor is the rejection;
    and in every run, a call on the recognizer (feeding, decoding,
    releasing) implies that the model was ready and the recognizer was
    constructed. *)
Theorem recognizer_setup_failures (env : Env) (stream : list StreamEvent) :
  (voskLoader env = Exited ->
   settled (transcribeWithVosk finalResult env stream) = None
   /\ calls (transcribeWithVosk finalResult env stream) = [ProcessExit])
  /\ (forall e,
        voskLoader env = ModelFailed e ->
        settled (transcribeWithVosk finalResult env stream) = Some (Throw e))
  /\ (forall e,
        voskLoader env = ModelReady -> newRecognizer env = Throw e ->
        settled (transcribeWithVosk finalResult env stream) = Some (Throw e))
  /\ (forall c,
        In c (calls (transcribeWithVosk finalResult env stream)) ->
        usesRecognizer c = true ->
        voskLoader env = ModelReady /\ newRecognizer env = Ok tt).
Proof.
  unfold transcribeWithVosk.
  assert (Hsole : forall (c0 c : Call),
             In c [c0] -> usesRecognizer c0 = false ->
             usesRecognizer c = true -> False).
  { intros c0 c [<-|[]] H0 H1. congruence. }
  destruct (voskLoader env) as [|e0|] eqn:L;
    [destruct (newRecognizer env) as [[]|e1] eqn:R|..];
    (split; [|split; [|split]]).
  - discriminate.
  - discriminate.
  - discriminate.
  - intros c _ _. split; reflexivity.
  - discriminate.
  - discriminate.
  - intros e _ H. injection H as <-. reflexivity.
  - intros c Hin Hu. exfalso. exact (Hsole (Reject e1) c Hin eq_refl Hu).
  - discriminate.
  - intros e H. injection H as <-. reflexivity.
  - discriminate.
  - intros c Hin Hu. exfalso. exact (Hsole (Reject e0) c Hin eq_refl Hu).
  - intros _. split; reflexivity.
  - discriminate.
  - discriminate.
  - intros c Hin Hu. exfalso. exact (Hsole ProcessExit c Hin eq_refl Hu).
Qed.

End RecognizerInvariants.

Lemma recognizer_release_per_ending_witness :
  frees (transcribeWithVosk decodeHello warmEnv
           [Data (js "ab"); End; StreamError (External (js "EIO"))]) = 2
  /\ settled (transcribeWithVosk decodeHello warmEnv
                ([Data (js "ab"); End] ++ [StreamError (External (js "EIO"))]))
     = Some (Ok (JStr (js "hello"))).
Proof.
  split.
  - exact (proj1 (@recognizer_release_per_ending decodeHello warmEnv
                    [Data (js "ab"); End; StreamError (External (js "EIO"))]
                    eq_refl eq_refl)).
  - apply (proj2 (proj2 (@recognizer_release_per_ending decodeHello warmEnv
                           [Data (js "ab"); End] eq_refl eq_refl))).
    reflexivity.
Defined.

Lemma recognizer_fed_in_order_witness :
  acceptedChunks
    (calls (transcribeWithVosk decodeHello warmEnv (events twoChunks)))
  = [js "ab"; js "cd"].
Proof.
  exact (proj1 (@recognizer_fed_in_order decodeHello warmEnv (events twoChunks)
                  eq_refl eq_refl)).
Defined.

(** ** The primary service client *)

Section PrimaryClient.

Variable net : FormNetwork.
Variable JSON_parse : jsstring -> option JsValue.
Variable path_resolve : jsstring -> jsstring.
Variable config : JsValue.

Lemma primary_run (filePath : jsstring) (options given : JsValue)
  (log : FormLog) :
  optionsOrDefault given = Ok options ->
  printable (primaryModel config options) = true ->
  printable (primaryUrl config options) = true ->
  transcribeWithWhisperPrimary net JSON_parse path_resolve config
    filePath given log
  = (match net log (primaryRequest path_resolve config filePath options) with
     | Throw e => Throw e
     | Ok response =>
         if ok response
         then match JSON_parse (text response) with
              | None => Throw SyntaxError
              | Some result =>
                  if truthy (selectText result)
                  then if printable (selectText result)
                       then Ok (trim (toString (selectText result)))
                       else Throw TypeError
                  else Throw (Error (js "Primary whisper returned no text."))
              end
         else Throw (Error (js "Primary whisper failed: "
                              ++ decimal (status response) ++ js " "
                              ++ statusText response))
     end,
     log ++ [primaryRequest path_resolve config filePath options]).
Proof.
  intros Ho Hm Hu.
  unfold transcribeWithWhisperPrimary, bind, lift, post, throw, ret, printed.
  rewrite Ho, Hm, Hu.
  fold (primaryRequest path_resolve config filePath options).
  destruct (net log _) as [response|e]; [|reflexivity].
  destruct (ok response); cbn [negb]; [|reflexivity].
  destruct (JSON_parse (text response)) as [result|]; [|reflexivity].
  destruct (truthy (selectText result)); cbn [negb]; [|reflexivity].
  destruct (printable (selectText result)); reflexivity.
Qed.



(** X16.  The text is selected with [??], not with [||]: a [text] field
    that is present and not [null] decides alone, so once the request is
    sent and answered OK, an empty [text] makes the client throw the
    no-text error even when [transcript] or [transcription] carries a
    text; and a JSON body [null] gives the same no-text error, not a
    [TypeError]. *)
Theorem primary_text_selection :
  (forall result,
      prop result "text" <> JUndefined -> prop result "text" <> JNull ->
      selectText result = prop result "text")
  /\ (forall filePath given options log response result,
        optionsOrDefault given = Ok options ->
        printable (primaryModel config options) = true ->
        printable (primaryUrl config options) = true ->
        net log (primaryRequest path_resolve config filePath options)
        = Ok response ->
        ok response = true ->
        JSON_parse (text response) = Some result ->
        prop result "text" <> JUndefined -> prop result "text" <> JNull ->
        truthy (prop result "text") = false ->
        fst (transcribeWithWhisperPrimary net JSON_parse path_resolve config
               filePath given log)
        = Throw (Error (js "Primary whisper returned no text.")))
  /\ (forall filePath given options log response,
        optionsOrDefault given = Ok options ->
        printable (primaryModel config options) = true ->
        printable (primaryUrl config options) = true ->
        net log (primaryRequest path_resolve config filePath options)
        = Ok response ->
        ok response = true ->
        JSON_parse (text response) = Some JNull ->
        fst (transcribeWithWhisperPrimary net JSON_parse path_resolve config
               filePath given log)
        = Throw (Error (js "Primary whisper returned no text."))).
Proof.
  assert (Hsel : forall result,
             prop result "text" <> JUndefined -> prop result "text" <> JNull ->
             selectText result = prop result "text").
  { intros result H1 H2. unfold selectText, optProp.
    destruct result; try (exfalso; apply H1; reflexivity);
      destruct (prop _ "text"); try contradiction; reflexivity. }
  split; [exact Hsel|]. split.
  - intros filePath given options log response result Ho Hm Hu N O P H1 H2 T.
    rewrite (@primary_run filePath options given log Ho Hm Hu), N, O, P, (Hsel result H1 H2), T.
    reflexivity.
  - intros filePath given options log response Ho Hm Hu N O P.
    rewrite (@primary_run filePath options given log Ho Hm Hu), N, O, P. reflexivity.
Qed.

End PrimaryClient.


Lemma primary_text_selection_witness :
  fst (transcribeWithWhisperPrimary (formNet maskedReply) primaryParse
         absolute (JObj []) (js "/srv/audio/clip") (JObj []) [])
  = Throw (Error (js "Primary whisper returned no text.")).
Proof.
  apply (proj1 (proj2 (@primary_text_selection (formNet maskedReply)
                         primaryParse absolute (JObj [])))
           (js "/srv/audio/clip") (JObj []) (JObj []) []
           (mkResponse true 200 (js "OK") maskedReply)
           (JObj [(js "text", JStr []); (js "transcript", JStr (js "hello"))]));
    try reflexivity; discriminate.
Defined.

(** ** Subtitle download and generic extraction *)

Section SubtitleDownload.

Variable net : Network.
Variable fs : FileSystem.


End SubtitleDownload.

(** ** The chain over the batch client *)

Section ChainOverBatch.

Variable net : Network.
Variable JSON_parse : jsstring -> option JsValue.
Variable fs : FileSystem.
Variable path_resolve : jsstring -> jsstring.
Variable config : JsValue.
Variable whisperPrimary : jsstring -> JsValue -> M Log JsValue.
Variable vosk : jsstring -> M Log JsValue.

(** X18.  A missing batch-service URL is swallowed by the chain: when the
    primary backend throws and [whisperApiUrl] is not configured, the
    batch backend is still invoked, sends no request, and the outcome is
    the offline backend's, run on the request log the primary backend
    left. *)
Theorem unconfigured_batch_falls_through (filePath : jsstring)
  (options : JsValue) (log log1 log2 : Log) (invoked : list Backend)
  (e : JsError) (r : Result JsValue) :
  truthy (prop config "whisperApiUrl") = false ->
  whisperPrimary filePath options log = (Throw e, log1) ->
  vosk filePath log1 = (r, log2) ->
  transcribeWithWhisperWithFallback whisperPrimary
    (fun f o =>
       asBackend (transcribeWithWhisper net JSON_parse fs path_resolve config
                    f o))
    vosk filePath options (log, invoked)
  = (r, (log2, invoked ++ [Primary; RemoteBatch; Offline])).
Proof.
  intros U Hp Hv.
  unfold transcribeWithWhisperWithFallback, try_catch, invoke, asBackend,
    transcribeWithWhisper, throw.
  cbn [fst snd]. rewrite Hp. cbn [fst snd]. rewrite U. cbn [negb fst snd].
  rewrite Hv, <- !app_assoc. destruct r; reflexivity.
Qed.

End ChainOverBatch.

Lemma unconfigured_batch_falls_through_witness :
  transcribeWithWhisperWithFallback
    (fun _ _ log => (Throw (Error (js "primary")), log))
    (fun f o =>
       asBackend (transcribeWithWhisper (scriptedNet []) scriptedParse
                    recordings absolute (JObj []) f o))
    (fun _ log => (Ok (JBool false), log))
    (js "/srv/audio/clip") (JObj []) ([], [])
  = (Ok (JBool false), ([], [Primary; RemoteBatch; Offline])).
Proof.
  apply (@unconfigured_batch_falls_through (scriptedNet []) scriptedParse
           recordings absolute (JObj [])
           (fun _ _ log => (Throw (Error (js "primary")), log))
           (fun _ log => (Ok (JBool false), log))
           (js "/srv/audio/clip") (JObj []) [] [] [] []
           (Error (js "primary")) (Ok (JBool false)));
    reflexivity.
Defined.

(** ** The event stream: line padding *)

Section EventLines.

Variable JSON_parse : jsstring -> option JsValue.

Lemma split_single (s : jsstring) : ~ In LF s -> split LF s = [s].
Proof.
  induction s as [|c r IH]; [reflexivity|]. intros H. cbn [split].
  destruct (eqc c LF) eqn:E.
  - apply eqc_true in E. simpl in H. tauto.
  - rewrite IH by (simpl in H; tauto). reflexivity.
Qed.

Lemma split_line (l r : jsstring) :
  ~ In LF l -> split LF (l ++ [LF] ++ r) = l :: split LF r.
Proof.
  induction l as [|c l IH]; intros H.
  - cbn [app split]. rewrite eqc_refl. reflexivity.
  - cbn [app split]. destruct (eqc c LF) eqn:E.
    + apply eqc_true in E. simpl in H. tauto.
    + cbn [app] in IH. rewrite IH by (simpl in H; tauto). reflexivity.
Qed.

Lemma split_join (lines : list jsstring) :
  lines <> [] -> (forall l, In l lines -> ~ In LF l) ->
  split LF (join [LF] lines) = lines.
Proof.
  induction lines as [|l rest IH]; [contradiction|]. intros _ H.
  destruct rest as [|l2 rest].
  - cbn [join]. apply split_single, H. left. reflexivity.
  - change (join [LF] (l :: l2 :: rest))
      with (l ++ [LF] ++ join [LF] (l2 :: rest)).
    rewrite split_line by (apply H; left; reflexivity).
    rewrite IH; [reflexivity | discriminate |].
    intros x Hx. apply H. right. exact Hx.
Qed.

(** X19.  The payload of an event stream depends only on its trimmed
    lines: two bodies whose lines agree after trimming (for instance lines
    ended by a carriage return, or indented) give the same result. *)
Theorem eventPayload_ignores_padding (lines lines' : list jsstring) :
  lines <> [] -> lines' <> [] ->
  (forall l, In l lines -> ~ In LF l) ->
  (forall l, In l lines' -> ~ In LF l) ->
  map trim lines = map trim lines' ->
  eventPayload JSON_parse (join [LF] lines)
  = eventPayload JSON_parse (join [LF] lines').
Proof.
  intros Hn Hn' Hl Hl' Ht. unfold eventPayload.
  rewrite !dataLines_eq, (split_join Hn Hl), (split_join Hn' Hl'), Ht.
  reflexivity.
Qed.

End EventLines.

Lemma eventPayload_ignores_padding_witness :
  eventPayload scriptedParse
    (join [LF] [js "event: complete" ++ [CR]; js "data: " ++ finalEvent ++ [CR]])
  = eventPayload scriptedParse
      (join [LF] [js "event: complete"; js "  data: " ++ finalEvent]).
Proof.
  apply eventPayload_ignores_padding; try discriminate; try reflexivity.
  - intros l [<-|[<-|[]]]; vm_compute; intros H; decompose [or] H;
      discriminate || assumption.
  - intros l [<-|[<-|[]]]; vm_compute; intros H; decompose [or] H;
      discriminate || assumption.
Defined.
